(** * A shallow embedding of the GA population container, the crossover
      dispatcher and the optimization pipeline of stk / MMEA.

    Sources embedded here:
    - [src/ga/population.py]                        ([Population])
    - [src/ga/crossover.py]                         ([Crossover])
    - [src/molecular/optimization/optimization.py]  ([_optimize_all],
      [_optimize_all_serial], [_OptimizationFunc])

    Python objects are modelled as records, Python lists as [list],
    dictionaries as [gmap] or association lists, exceptions as the
    [Raise] branch of [result], and printing / logging / the failure file
    as fields of an explicit [World] that is threaded through the code. *)

From Stdlib Require Import ZArith QArith Qround.
From stdpp Require Import base list strings gmap pretty sorting.

Local Open Scope Z_scope.

(** ** Python exceptions and fallible computations *)

Inductive Exn : Type :=
| TypeError (msg : string)
| ValueError (msg : string)
| KeyError (key : string)
| IndexError (msg : string)
| AttributeError (msg : string)
| Exception (msg : string).

Inductive result (A : Type) : Type :=
| Ok (a : A)
| Raise (e : Exn).
Arguments Ok {A} a.
Arguments Raise {A} e.

#[global] Instance result_ret : MRet result := fun A a => Ok a.

#[global] Instance result_bind : MBind result := fun A B k r =>
  match r with
  | Ok a => k a
  | Raise e => Raise e
  end.

Definition is_ok {A} (r : result A) : bool :=
  match r with Ok _ => true | Raise _ => false end.

(** ** Molecules

    The attributes of [Molecule] / [MacroMolecule] which the three source
    files read or write: [name], [file], [optimized], [failed], the
    structure held in [mol], and the content key compared by [same]. *)

Record Molecule : Type := mkMolecule {
  name : string;
  file : string;
  key : nat;
  mol : Z;
  optimized : bool;
  failed : bool
}.

#[global] Instance Molecule_eq_dec : EqDecision Molecule.
Proof. solve_decision. Defined.

Definition set_optimized (b : bool) (m : Molecule) : Molecule :=
  {| name := name m; file := file m; key := key m; mol := mol m;
     optimized := b; failed := failed m |}.

Definition set_failed (b : bool) (m : Molecule) : Molecule :=
  {| name := name m; file := file m; key := key m; mol := mol m;
     optimized := optimized m; failed := b |}.

Definition set_name (s : string) (m : Molecule) : Molecule :=
  {| name := s; file := file m; key := key m; mol := mol m;
     optimized := optimized m; failed := failed m |}.

(** Modelled from the spec: [MacroMolecule.same] is not under src/.  Two
    candidates are semantically equal iff their fingerprints match,
    regardless of identity. *)
Definition same (a b : Molecule) : bool := Nat.eqb (key a) (key b).

(** ** Function descriptions and GA tools *)

Record FunctionData : Type := mkFunctionData {
  fd_name : string;
  fd_params : list (string * Z)
}.

(** [Crossover.__init__] stores its three arguments, nothing else. *)
Record Crossover : Type := mkCrossover {
  funcs : list FunctionData;
  weights : option (list Q);
  num_crossovers : Z
}.

Definition Crossover_init (funcs_ : list FunctionData) (num_crossovers_ : Z)
    (weights_ : option (list Q)) : result Crossover :=
  Ok {| funcs := funcs_; weights := weights_;
        num_crossovers := num_crossovers_ |}.

(** Modelled from the spec: [GATools] ([ga_tools.py] is not under src/) is
    a bundle with one slot per GA operation; [GATools.init_empty()] is the
    placeholder with no operator configured. *)
Record GATools : Type := mkGATools {
  selection : option FunctionData;
  crossover : option Crossover;
  mutation : option FunctionData;
  normalization : option FunctionData;
  optimization : option FunctionData;
  fitness : option FunctionData;
  exit_ : option FunctionData
}.

Definition GATools_init_empty : GATools :=
  {| selection := None; crossover := None; mutation := None;
     normalization := None; optimization := None; fitness := None;
     exit_ := None |}.

(** ** The population tree *)

(** The [ga_tools] attribute holds a Python reference which
    [Population.load] may set to [None], hence the [option]. *)
Local Unset Elimination Schemes.
Inductive Population : Type := mkPopulation {
  populations : list Population;
  members : list Molecule;
  ga_tools : option GATools
}.
Local Set Elimination Schemes.

(** Arguments accepted by the variadic [Population.__init__]. *)
Inductive Arg : Type :=
| APop (p : Population)
| AMol (m : Molecule)
| ATools (t : GATools)
| AOther (repr : string).

Definition init_step (acc : result Population) (arg : Arg) : result Population :=
  self ← acc;
  match arg with
  | APop p => Ok (mkPopulation (populations self ++ [p]) (members self) (ga_tools self))
  | AMol m => Ok (mkPopulation (populations self) (members self ++ [m]) (ga_tools self))
  | ATools t => Ok (mkPopulation (populations self) (members self) (Some t))
  | AOther _ =>
      Raise (TypeError "Population can only be initialized with ``Population``, ``MacroMolecule`` and ``GATools`` types.")
  end.

Definition Population_init (args : list Arg) : result Population :=
  fold_left init_step args (Ok (mkPopulation [] [] (Some GATools_init_empty))).

(** [Population(ga_tools)], the call shape used by [gen_next_gen] and
    [__sub__]; when the argument is [None] the constructor raises. *)
Definition Population_of_tools (t : option GATools) : result Population :=
  match t with
  | Some t => Population_init [ATools t]
  | None => Population_init [AOther "None"]
  end.

(** [all_members]: first the directly held members, then every
    subpopulation's [all_members], in order. *)
Fixpoint all_members (p : Population) : list Molecule :=
  match p with
  | mkPopulation pops mems _ => mems ++ concat (map all_members pops)
  end.

(** [__iter__] *)
Definition iter (p : Population) : list Molecule := all_members p.

(** [__len__] *)
Definition len (p : Population) : Z := Z.of_nat (length (all_members p)).

(** [__contains__]: [any(item.same(mol) for mol in self.all_members())] *)
Definition contains (p : Population) (item : Molecule) : bool :=
  existsb (same item) (all_members p).

(** Python list indexing with an [int] key. *)
Definition py_index {A} (l : list A) (k : Z) : result A :=
  let n := Z.of_nat (length l) in
  let k' := if k <? 0 then k + n else k in
  if (0 <=? k') && (k' <? n) then
    match l !! Z.to_nat k' with
    | Some x => Ok x
    | None => Raise (IndexError "list index out of range")
    end
  else Raise (IndexError "list index out of range").

(** [sys.maxsize] of a 64 bit interpreter. *)
Definition sys_maxsize : Z := 2 ^ 63 - 1.

(** [itertools.islice(iterable, start, stop, step)], for bounds and steps
    up to [sys_maxsize]; the iterator rejects larger ones with a
    [ValueError] too, a case which is left out here. *)
Fixpoint take_every (step : nat) (skip : nat) {A} (l : list A) : list A :=
  match l with
  | [] => []
  | x :: l' =>
      match skip with
      | O => x :: take_every step (Nat.pred step) l'
      | S s => take_every step s l'
      end
  end.

Definition islice {A} (l : list A) (start stop step : option Z) : result (list A) :=
  let bad (o : option Z) (lo : Z) :=
    match o with Some v => v <? lo | None => false end in
  if bad start 0 || bad stop 0 then
    Raise (ValueError "Indices for islice() must be None or an integer: 0 <= x <= sys.maxsize.")
  else if bad step 1 then
    Raise (ValueError "Step for islice() must be a positive integer or None.")
  else
    let s := Z.to_nat (default 0 start) in
    let l1 := match stop with
              | Some e => take (Z.to_nat e) l
              | None => l
              end in
    Ok (take_every (Z.to_nat (default 1 step)) 0 (drop s l1)).

Inductive Key : Type :=
| KInt (k : Z)
| KSlice (start stop step : option Z)
| KOther (type_name : string).

Inductive Item : Type :=
| IMol (m : Molecule)
| IPop (p : Population).

(** [__getitem__] *)
Definition getitem (self : Population) (k : Key) : result Item :=
  match k with
  | KInt i =>
      m ← py_index (all_members self) i;
      Ok (IMol m)
  | KSlice start stop step =>
      mols ← islice (all_members self) start stop step;
      pop ← Population_init (map AMol mols);
      Ok (IPop (mkPopulation (populations pop) (members pop) (ga_tools self)))
  | KOther ty =>
      Raise (TypeError ("Index must be an integer or slice, not " +:+ ty +:+ "."))
  end.

(** ** Persistence: [tolist], [fromlist], [load] *)

Local Unset Elimination Schemes.
Inductive JSON : Type :=
| JNull
| JBool (b : bool)
| JNum (z : Z)
| JStr (s : string)
| JList (items : list JSON)
| JDict (fields : list (string * JSON)).
Local Set Elimination Schemes.

Definition dict_get (d : list (string * JSON)) (k : string) : result JSON :=
  match List.find (fun kv => String.eqb (fst kv) k) d with
  | Some kv => Ok (snd kv)
  | None => Raise (KeyError k)
  end.

(** Modelled from the spec: [Molecule.json] is not under src/.  A candidate
    is serialized to a flat record (object) of its attributes. *)
Definition json (m : Molecule) : JSON :=
  JDict [("name", JStr (name m)); ("file", JStr (file m));
         ("key", JNum (Z.of_nat (key m))); ("mol", JNum (mol m));
         ("optimized", JBool (optimized m)); ("failed", JBool (failed m))].

(** The name of a molecule whose persisted name hint was not loaded. *)
Definition fresh_name : string := "".

Definition as_str (j : JSON) : result string :=
  match j with JStr s => Ok s | _ => Raise (TypeError "expected str") end.
Definition as_num (j : JSON) : result Z :=
  match j with JNum z => Ok z | _ => Raise (TypeError "expected int") end.
Definition as_bool (j : JSON) : result bool :=
  match j with JBool b => Ok b | _ => Raise (TypeError "expected bool") end.

(** Modelled from the spec: [Molecule.fromdict] is not under src/.  It
    rebuilds a candidate from its record; with [load_names = False] the
    persisted name hint is discarded. *)
Definition fromdict (d : list (string * JSON)) (load_names : bool) : result Molecule :=
  nm ← (if load_names then dict_get d "name" ≫= as_str else Ok fresh_name);
  fl ← dict_get d "file" ≫= as_str;
  k ← dict_get d "key" ≫= as_num;
  ml ← dict_get d "mol" ≫= as_num;
  o ← dict_get d "optimized" ≫= as_bool;
  f ← dict_get d "failed" ≫= as_bool;
  Ok {| name := nm; file := fl; key := Z.to_nat k; mol := ml;
        optimized := o; failed := f |}.

(** [tolist] *)
Fixpoint tolist (p : Population) : list JSON :=
  match p with
  | mkPopulation pops mems _ =>
      map json mems ++ map (fun sp => JList (tolist sp)) pops
  end.

(** [fromlist]: the recursion descends into the nested lists, the loop
    runs left to right and stops at the first item that raises. *)
Fixpoint fromlist_item (load_names : bool) (pop : Population) (item : JSON)
    {struct item} : result Population :=
  match item with
  | JDict d =>
      m ← fromdict d load_names;
      Ok (mkPopulation (populations pop) (members pop ++ [m]) (ga_tools pop))
  | JList l =>
      sp ← (fix loop (l : list JSON) (acc : Population) : result Population :=
              match l with
              | [] => Ok acc
              | x :: r => acc' ← fromlist_item load_names acc x; loop r acc'
              end) l (mkPopulation [] [] (Some GATools_init_empty));
      Ok (mkPopulation (populations pop ++ [sp]) (members pop) (ga_tools pop))
  | _ =>
      Raise (TypeError "Population list must consist only of strings and lists.")
  end.

Fixpoint fromlist_from (load_names : bool) (pop_list : list JSON)
    (pop : Population) : result Population :=
  match pop_list with
  | [] => Ok pop
  | item :: rest =>
      pop' ← fromlist_item load_names pop item;
      fromlist_from load_names rest pop'
  end.

Definition fromlist (pop_list : list JSON) (load_names : bool) : result Population :=
  fromlist_from load_names pop_list (mkPopulation [] [] (Some GATools_init_empty)).

(** What iterating over a parsed JSON document yields in Python. *)
Definition py_iter_json (j : JSON) : result (list JSON) :=
  match j with
  | JList l => Ok l
  | JDict d => Ok (map (fun kv => JStr (fst kv)) d)
  | JStr s => Ok (map (fun c => JStr (String c EmptyString)) (String.list_ascii_of_string s))
  | _ => Raise (TypeError "object is not iterable")
  end.

(** [load]: the file system maps a path to the parsed content of the
    file, when there is one. *)
Definition load (fs : gmap string JSON) (path : string)
    (ga_tools_ : option GATools) (load_names : bool) : result Population :=
  match fs !! path with
  | None => Raise (Exception ("No such file or directory: " +:+ path))
  | Some doc =>
      pop_list ← py_iter_json doc;
      pop ← fromlist pop_list load_names;
      Ok (mkPopulation (populations pop) (members pop) ga_tools_)
  end.

(** ** Adding members, subtraction *)

Definition append_member (self : Population) (m : Molecule) : Population :=
  mkPopulation (populations self) (members self ++ [m]) (ga_tools self).

(** [self.members.extend(mol for mol in population if mol not in self)]:
    the generator is consumed while the list grows, so each molecule is
    tested against the members appended before it. *)
Fixpoint extend_unique (self : Population) (mols : list Molecule) : Population :=
  match mols with
  | [] => self
  | m :: rest =>
      if contains self m then extend_unique self rest
      else extend_unique (append_member self m) rest
  end.

(** [add_members] *)
Definition add_members (self : Population) (population : list Molecule)
    (duplicates : bool) : Population :=
  if duplicates then
    mkPopulation (populations self) (members self ++ population) (ga_tools self)
  else extend_unique self population.

(** [add_subpopulation] *)
Definition add_subpopulation (self population : Population) : Population :=
  mkPopulation (populations self ++ [population]) (members self) (ga_tools self).

(** [__sub__] *)
Definition sub (self other : Population) : result Population :=
  new_pop ← Population_of_tools (ga_tools self);
  Ok (add_members new_pop
        (filter (fun m => negb (contains other m) = true) (all_members self))
        false).

(** [__add__] *)
Definition add (self other : Population) : result Population :=
  match ga_tools self with
  | Some t => Population_init [APop self; APop other; ATools t]
  | None => Population_init [APop self; APop other; AOther "None"]
  end.


(** ** Selection and the next generation *)

(** [collections.Counter] keyed by molecule. *)
Definition Counter : Type := list (Molecule * Z).

Fixpoint counter_add (c : Counter) (m : Molecule) (n : Z) : Counter :=
  match c with
  | [] => [(m, n)]
  | (m', k) :: c' =>
      if decide (m' = m) then (m', k + n) :: c'
      else (m', k) :: counter_add c' m n
  end.

(** [counter.update(iterable)] *)
Definition counter_update (c : Counter) (ms : list Molecule) : Counter :=
  fold_left (fun c m => counter_add c m 1) ms c.

Definition counter_has (c : Counter) (m : Molecule) : bool :=
  existsb (fun e => bool_decide (fst e = m)) c.

(** [for member in population: if member not in counter.keys():
    counter.update({member: 0})] *)
Definition counter_fill (c : Counter) (ms : list Molecule) : Counter :=
  fold_left (fun c m => if counter_has c m then c else counter_add c m 0) ms c.

Definition counter_total (c : Counter) : Z :=
  foldr (fun e acc => snd e + acc) 0 c.

(** Modelled from the spec: the selection engine ([selection.py] is not
    under src/) yields a finite sequence of single candidates for the
    generational and mutation strategies and of parent tuples for the
    crossover strategy. *)
Record SelectionEngine : Type := mkSelectionEngine {
  sel_generational : Population → list Molecule;
  sel_crossover : Population → list (list Molecule);
  sel_mutation : Population → list Molecule
}.

Section Selection.
(** How a configured selection description behaves. *)
Context (engine : FunctionData → SelectionEngine).

(** [self.ga_tools.selection], the callable which [select] delegates to. *)
Definition selection_of (self : Population) : result SelectionEngine :=
  match ga_tools self with
  | None => Raise (AttributeError "'NoneType' object has no attribute 'selection'")
  | Some t =>
      match selection t with
      | None => Raise (TypeError "'NoneType' object is not callable")
      | Some fd => Ok (engine fd)
      end
  end.

(** [self.select('generational')] *)
Definition select_generational (self : Population) : result (list Molecule) :=
  s ← selection_of self; Ok (sel_generational s self).

(** [self.select('crossover')] *)
Definition select_crossover (self : Population) : result (list (list Molecule)) :=
  s ← selection_of self; Ok (sel_crossover s self).

(** The first loop of [gen_next_gen]. *)
Fixpoint next_gen_loop (pop_size : Z) (selected : list Molecule)
    (new_gen : Population) (counter : Counter) : Population * Counter :=
  match selected with
  | [] => (new_gen, counter)
  | member :: rest =>
      let counter' := counter_update counter [member] in
      let new_gen' := add_members new_gen [member] false in
      if len new_gen' =? pop_size then (new_gen', counter')
      else next_gen_loop pop_size rest new_gen' counter'
  end.

(** [gen_next_gen]: returns the new generation together with the tally
    handed to [plot_counter]. *)
Definition gen_next_gen (self : Population) (pop_size : Z)
    : result (Population * Counter) :=
  new_gen ← Population_of_tools (ga_tools self);
  selected ← select_generational self;
  let '(new_gen, counter) := next_gen_loop pop_size selected new_gen [] in
  Ok (new_gen, counter_fill counter (iter self)).
End Selection.

(** ** The world outside the interpreter

    Standard output, the [logging] records, the failure file written by
    [MolError], the molecule cache, the plots, and numpy's random stream
    (the [rng_pos]-th uniform draw in [[0, 1)] is [rng rng_pos]). *)

Inductive Level : Type := DEBUG | INFO | ERROR.

Record World : Type := mkWorld {
  stdout : list string;
  log : list (Level * string);
  failures : list (Exn * Molecule * string);
  cache : gmap nat Molecule;
  plots : list (Counter * string);
  rng : nat → Q;
  rng_pos : nat
}.

Definition print (s : string) (w : World) : World :=
  mkWorld (stdout w ++ [s]) (log w) (failures w) (cache w) (plots w)
          (rng w) (rng_pos w).

Definition logger (lvl : Level) (s : string) (w : World) : World :=
  mkWorld (stdout w) (log w ++ [(lvl, s)]) (failures w) (cache w) (plots w)
          (rng w) (rng_pos w).

(** Modelled from the spec: [MolError] ([convenience_tools] is not under
    src/) records the failure, with the molecule and the error, in
    ``failures.txt``. *)
Definition MolError (ex : Exn) (m : Molecule) (notes : string) (w : World) : World :=
  mkWorld (stdout w) (log w) (failures w ++ [(ex, m, notes)]) (cache w)
          (plots w) (rng w) (rng_pos w).

(** Modelled from the spec: [update_cache] (a method of the absent
    [Molecule] class) refreshes the cache entry keyed by the molecule's
    content key. *)
Definition update_cache (m : Molecule) (w : World) : World :=
  mkWorld (stdout w) (log w) (failures w) (<[key m := m]> (cache w))
          (plots w) (rng w) (rng_pos w).

Definition plot_counter (c : Counter) (path : string) (w : World) : World :=
  mkWorld (stdout w) (log w) (failures w) (cache w) (plots w ++ [(c, path)])
          (rng w) (rng_pos w).

Definition next_random (w : World) : Q * World :=
  (rng w (rng_pos w),
   mkWorld (stdout w) (log w) (failures w) (cache w) (plots w)
           (rng w) (S (rng_pos w))).

(** The characters which a Rocq string literal cannot hold directly. *)
Definition nl : string := String (Ascii.ascii_of_nat 10) EmptyString.
Definition dq : string := String (Ascii.ascii_of_nat 34) EmptyString.

(** ** Optimization *)

(** An optimization function with its keyword parameters bound: it
    mutates the molecule in place and either returns or raises; the
    molecule in the result is its state when the call ends. *)
Abbreviation OptFunc := (Molecule → Molecule * option Exn).

Definition has_param (params : list (string * Z)) (k : string) : bool :=
  existsb (fun kv => String.eqb (fst kv) k) params.

(** [partial(do_not_optimize, **params)] *)
Definition do_not_optimize (params : list (string * Z)) : OptFunc := fun macro_mol =>
  match params with
  | [] => (macro_mol, None)
  | kv :: _ =>
      (macro_mol,
       Some (TypeError ("do_not_optimize() got an unexpected keyword argument " +:+ fst kv)))
  end.

(** [partial(raiser, **params)] *)
Definition raiser (params : list (string * Z)) : OptFunc := fun macro_mol =>
  match List.find (fun kv => negb (String.eqb (fst kv) "param1" || String.eqb (fst kv) "param2")) params with
  | Some kv =>
      (macro_mol,
       Some (TypeError ("raiser() got an unexpected keyword argument " +:+ fst kv)))
  | None =>
      if has_param params "param1" then
        (macro_mol, Some (Exception "Raiser optimization function used."))
      else
        (macro_mol,
         Some (TypeError "raiser() missing 1 required positional argument: 'param1'"))
  end.

(** The module namespace [globals()]: the functions defined in or
    imported into [optimization.py], by name. *)
Abbreviation Globals := (gmap string (list (string * Z) → OptFunc)).

(** The entries of the namespace whose code is in the file itself; the
    functions which call rdkit or MacroModel are passed in as [externals]. *)
Definition module_globals (externals : Globals) : Globals :=
  <["do_not_optimize" := do_not_optimize]>
    (<["raiser" := raiser]> externals).

(** [_OptimizationFunc]: the wrapped function and the attribute
    [optimized] of the wrapper object itself, absent until assigned. *)
Record OptimizationFunc : Type := mkOptimizationFunc {
  wrapped : OptFunc;
  self_optimized : option bool
}.

Definition OptimizationFunc_init (func : OptFunc) : OptimizationFunc :=
  {| wrapped := func; self_optimized := None |}.

(** [_OptimizationFunc.__call__] *)
Definition OptimizationFunc_call (self : OptimizationFunc) (macro_mol : Molecule)
    (w : World) : OptimizationFunc * Molecule * World :=
  if optimized macro_mol then
    (self, macro_mol, print ("Skipping " +:+ file macro_mol) w)
  else
    let w := print (nl +:+ "Optimizing " +:+ file macro_mol +:+ ".") w in
    match wrapped self macro_mol with
    | (macro_mol, None) =>
        (mkOptimizationFunc (wrapped self) (Some true), macro_mol, w)
    | (macro_mol, Some ex) =>
        let macro_mol := set_failed true (set_optimized true macro_mol) in
        (self, macro_mol, MolError ex macro_mol "During optimization." w)
    end.

(** [globals()[func_data.name]] followed by the construction of
    [p_func]. *)
Definition make_p_func (G : Globals) (func_data : FunctionData) : result OptimizationFunc :=
  match G !! fd_name func_data with
  | None => Raise (KeyError (fd_name func_data))
  | Some func => Ok (OptimizationFunc_init (func (fd_params func_data)))
  end.

(** The generator [(p_func(member) for member in population)], run to
    its end: one wrapper object serves every member.  Molecules are
    values here: a population which holds the same object twice, whose
    second visit would see what the first did to it, is left out. *)
Fixpoint serial_run (p_func : OptimizationFunc) (ms : list Molecule) (w : World)
    : list Molecule * World :=
  match ms with
  | [] => ([], w)
  | member :: rest =>
      let '(p_func, m, w) := OptimizationFunc_call p_func member w in
      let '(out, w) := serial_run p_func rest w in
      (m :: out, w)
  end.

(** [_optimize_all_serial] *)
Definition _optimize_all_serial (G : Globals) (func_data : FunctionData)
    (population : Population) (w : World) : result (list Molecule * World) :=
  p_func ← make_p_func G func_data;
  Ok (serial_run p_func (iter population) w).

(** [pool.map(p_func, population)]: every task works on its own pickled
    copy of [p_func] and of the molecule; the results come back in the
    order of the input.  The workers run side by side, so the order of
    what they print and record is not fixed by the code; here it is
    taken in the order of the input, and only the returned list is
    meant to be read in order. *)
Fixpoint pool_map (p_func : OptimizationFunc) (ms : list Molecule) (w : World)
    : list Molecule * World :=
  match ms with
  | [] => ([], w)
  | member :: rest =>
      let '(_, m, w) := OptimizationFunc_call p_func member w in
      let '(out, w) := pool_map p_func rest w in
      (m :: out, w)
  end.

(** [_optimize_all] *)
Definition _optimize_all (G : Globals) (func_data : FunctionData)
    (population : Population) (w : World) : result (list Molecule * World) :=
  p_func ← make_p_func G func_data;
  let '(optimized_, w) := pool_map p_func (iter population) w in
  Ok (optimized_, fold_left (fun w member => update_cache member w) optimized_ w).

(** [Population.optimize_population] *)
Definition optimize_population (G : Globals) (self : Population) (w : World)
    : result (list Molecule * World) :=
  match ga_tools self with
  | None => Raise (AttributeError "'NoneType' object has no attribute 'optimization'")
  | Some t =>
      match optimization t with
      | None => Raise (AttributeError "'NoneType' object has no attribute 'name'")
      | Some fd => _optimize_all G fd self w
      end
  end.

(** ** Crossover *)

Local Open Scope Q_scope.

(** The tolerance of numpy's test that probabilities sum to one: the
    square root of the double precision machine epsilon, [2^-26]. *)
Definition atol : Q := 1 # 67108864.

Definition Qsum (l : list Q) : Q := foldr Qplus 0 l.

Definition Qabs_diff_le (x y tol : Q) : bool :=
  Qle_bool (x - y) tol && Qle_bool (y - x) tol.

(** Index of the first entry of the normalized cumulative sums which
    exceeds [u] ([searchsorted] with [side='right']). *)
Fixpoint pick_index (total acc : Q) (ps : list Q) (u : Q) : nat :=
  match ps with
  | [] => O
  | p :: ps' =>
      if Qle_bool ((acc + p) / total) u
      then S (pick_index total (acc + p) ps' u) else O
  end.

(** Largest [k < n] with [k <= x], for [x >= 0]. *)
Definition Qfloor_nat (x : Q) : nat := Z.to_nat (Qfloor x).

(** [np.random.choice(a, p=p)] on the uniform draw [u]: the checks numpy
    makes on its arguments, in numpy's order, then the draw.  Weights are
    exact rationals here, whereas numpy sums them in double precision:
    the two agree except for sums within a rounding error of the
    tolerance. *)
Definition np_random_choice {A} (a : list A) (p : option (list Q)) (u : Q) : result A :=
  match a with
  | [] => Raise (ValueError "'a' cannot be empty unless no samples are taken")
  | a0 :: _ =>
      match p with
      | None =>
          Ok (nth (Nat.min (Qfloor_nat (u * inject_Z (Z.of_nat (length a))))
                           (Nat.pred (length a))) a a0)
      | Some ps =>
          if negb (Nat.eqb (length ps) (length a)) then
            Raise (ValueError "'a' and 'p' must have same size")
          else if existsb (fun x => negb (Qle_bool 0 x)) ps then
            Raise (ValueError "probabilities are not non-negative")
          else if negb (Qabs_diff_le (Qsum ps) 1 atol) then
            Raise (ValueError "probabilities do not sum to 1")
          else
            Ok (nth (Nat.min (pick_index (Qsum ps) 0 ps u) (Nat.pred (length a))) a a0)
      end
  end.

(** What the source asks of [weights]: one entry per function, entries
    summing to one. *)
Definition weights_well_formed (fs : list FunctionData) (ws : list Q) : bool :=
  Nat.eqb (length ws) (length fs) && Qabs_diff_le (Qsum ws) 1 atol.

(** Weights which numpy rejects whatever the rounding of its double
    precision sum: a wrong number of entries, a negative entry, or a sum
    which is off from one by more than a thousandth, a margin far above
    the tolerance [atol] and above the rounding error of the sum. *)
Definition weights_clearly_invalid (fs : list FunctionData) (ws : list Q) : bool :=
  negb (Nat.eqb (length ws) (length fs))
  || existsb (fun x => negb (Qle_bool 0 x)) ws
  || negb (Qabs_diff_le (Qsum ws) 1 (1 # 1000)).

Local Close Scope Q_scope.

(** A crossover method of the class, applied to the unpacked parents
    and the keyword parameters of its description: it returns the
    offspring or raises. *)
Abbreviation CrossFunc :=
  (list Molecule → list (string * Z) → result (list Molecule)).

(** The methods which [getattr(self, name)] can find. *)
Abbreviation Methods := (gmap string CrossFunc).

(** [str.join], and the quoted parent names joined by [' and ']. *)
Fixpoint join (sep : string) (l : list string) : string :=
  match l with
  | [] => ""
  | [s] => s
  | s :: l' => s +:+ sep +:+ join sep l'
  end.

Definition pnames (parents : list Molecule) : string :=
  join " and " (map (fun p => dq +:+ name p +:+ dq) parents).

Fixpoint str_prefix (p s : string) : bool :=
  match p, s with
  | EmptyString, _ => true
  | String a p', String b s' => if Ascii.eqb a b then str_prefix p' s' else false
  | String _ _, EmptyString => false
  end.

(** [str.replace(old, new)] for a non-empty [old]: [skip] counts the
    characters of a match still to be dropped. *)
Fixpoint str_replace_from (skip : nat) (old new s : string) : string :=
  match s with
  | EmptyString => EmptyString
  | String c s' =>
      match skip with
      | S k => str_replace_from k old new s'
      | O =>
          if str_prefix old s then
            new +:+ str_replace_from (Nat.pred (String.length old)) old new s'
          else String c (str_replace_from O old new s')
      end
  end.

Definition str_replace (old new s : string) : string :=
  str_replace_from O old new s.

(** The message of the [except] branch of [Crossover.__call__]. *)
Definition errormsg (func_name : string) (parents : list Molecule) : string :=
  str_replace "PARENTS" (pnames parents)
    ("Crossover function " +:+ dq +:+ func_name +:+ "()" +:+ dq +:+
     " failed on molecules PARENTS.").

(** The state of the loop of [Crossover.__call__]. *)
Record CrossState : Type := mkCrossState {
  offspring_pop : Population;
  counter : Counter;
  world : World
}.

Section Crossover_call.
Context (engine : FunctionData → SelectionEngine).
Context (methods : Methods).

(** The [debug] records for the offspring which carry a name. *)
Definition log_cached (offspring : list Molecule) (w : World) : World :=
  fold_left
    (fun w o =>
       if String.eqb (name o) "" then w
       else logger DEBUG ("Offspring " +:+ dq +:+ name o +:+ dq +:+
                          " retrieved from cache.") w)
    offspring w.

(** One iteration of the [for i, parents in enumerate(parent_pool, 1)]
    loop.  The random choice and [getattr] stand outside the [try]. *)
Definition cross_step (self : Crossover) (i : Z) (parents : list Molecule)
    (st : CrossState) : result CrossState :=
  let w := logger INFO ("Crossover number " +:+ pretty i +:+ ". Finish when " +:+
                        pretty (num_crossovers self) +:+ ".") (world st) in
  let counter := counter_update (counter st) parents in
  let '(u, w) := next_random w in
  func_data ← np_random_choice (funcs self) (weights self) u;
  func ← match methods !! fd_name func_data with
         | Some f => Ok f
         | None => Raise (AttributeError
                            ("'Crossover' object has no attribute '" +:+
                             fd_name func_data +:+ "'"))
         end;
  match func parents (fd_params func_data) with
  | Ok offspring =>
      Ok (mkCrossState (add_members (offspring_pop st) offspring false)
                       counter (log_cached offspring w))
  | Raise ex =>
      Ok (mkCrossState (offspring_pop st) counter
                       (logger ERROR (errormsg (fd_name func_data) parents) w))
  end.

Fixpoint cross_loop (self : Crossover) (i : Z) (parent_pool : list (list Molecule))
    (st : CrossState) : result CrossState :=
  match parent_pool with
  | [] => Ok st
  | parents :: rest =>
      st' ← cross_step self i parents st;
      cross_loop self (i + 1) rest st'
  end.

(** [Crossover.__call__].  [GAPopulation] ([ga_population.py]) is not
    under src/; the offspring population is a [Population] which holds
    the [ga_tools] of the input, and [-=] is [Population.__sub__]. *)
Definition Crossover_call (self : Crossover) (population : Population)
    (counter_path : string) (w : World) : result (Population * World) :=
  let st0 := mkCrossState (mkPopulation [] [] (ga_tools population)) [] w in
  selected ← select_crossover engine population;
  parent_pool ← islice selected None (Some (num_crossovers self)) None;
  st ← cross_loop self 1 parent_pool st0;
  result_pop ← sub (offspring_pop st) population;
  let w := if String.eqb counter_path "" then world st
           else plot_counter (counter_fill (counter st) (iter population))
                             counter_path (world st) in
  Ok (result_pop, w).
End Crossover_call.

(** ** Definitions used to state the properties, and sample populations *)

Definition mol_a : Molecule :=
  {| name := "a"; file := "a.mol"; key := 1; mol := 10;
     optimized := false; failed := false |}.
Definition mol_b : Molecule :=
  {| name := "b"; file := "b.mol"; key := 2; mol := 20;
     optimized := false; failed := false |}.
Definition mol_c : Molecule :=
  {| name := "c"; file := "c.mol"; key := 3; mol := 30;
     optimized := true; failed := false |}.
Definition mol_d : Molecule :=
  {| name := "d"; file := "d.mol"; key := 4; mol := 40;
     optimized := false; failed := false |}.

(** [Population(a, Population(c, Population(d)), Population(b))] *)
Definition nested_pop : Population :=
  mkPopulation
    [mkPopulation [mkPopulation [] [mol_d] (Some GATools_init_empty)]
                  [mol_c] (Some GATools_init_empty);
     mkPopulation [] [mol_b] (Some GATools_init_empty)]
    [mol_a] (Some GATools_init_empty).

(** A molecule after a trip through [json] and [fromdict]. *)
Definition reload_molecule (load_names : bool) (m : Molecule) : Molecule :=
  if load_names then m else set_name fresh_name m.

(** A population tree after a trip through [tolist] and [fromlist]: the
    same tree of members and subpopulations, every node with the
    placeholder [GATools]. *)
Fixpoint reloaded (load_names : bool) (p : Population) : Population :=
  match p with
  | mkPopulation pops mems _ =>
      mkPopulation (map (reloaded load_names) pops)
                   (map (reload_molecule load_names) mems)
                   (Some GATools_init_empty)
  end.

Definition dumped_fs : gmap string JSON :=
  {[ "pop.json" := JList (tolist nested_pop) ]}.

(** [mol_a'] has the fingerprint of [mol_a], [mol_b'] that of [mol_b]. *)
Definition mol_a' : Molecule :=
  {| name := "a2"; file := "a2.mol"; key := 1; mol := 11;
     optimized := false; failed := false |}.
Definition mol_b' : Molecule :=
  {| name := "b2"; file := "b2.mol"; key := 2; mol := 21;
     optimized := false; failed := false |}.

Definition flat_pop (ms : list Molecule) : Population :=
  mkPopulation [] ms (Some GATools_init_empty).

(** A selection which yields the members of the population in order. *)
Definition in_order : FunctionData → SelectionEngine := fun _ =>
  {| sel_generational := iter;
     sel_crossover := fun p => map (fun m => [m; m]) (iter p);
     sel_mutation := iter |}.

Definition tools_with_selection : GATools :=
  {| selection := Some (mkFunctionData "in_order" []); crossover := None;
     mutation := None; normalization := None; optimization := None;
     fitness := None; exit_ := None |}.

Definition ga_pop (ms : list Molecule) : Population :=
  mkPopulation [] ms (Some tools_with_selection).

(** What [_OptimizationFunc.__call__] returns for one molecule. *)
Definition call_result (func : OptFunc) (m : Molecule) : Molecule :=
  (OptimizationFunc_call (OptimizationFunc_init func) m
     (mkWorld [] [] [] ∅ [] (fun _ => 0%Q) O)).1.2.

Definition world0 : World := mkWorld [] [] [] ∅ [] (fun _ => 0%Q) O.

(** An optimization function which raises on the molecules with key [1]
    and moves the structure of the others. *)
Definition picky (params : list (string * Z)) : OptFunc := fun macro_mol =>
  if Nat.eqb (key macro_mol) 1
  then (macro_mol, Some (Exception "no convergence"))
  else ({| name := name macro_mol; file := file macro_mol; key := key macro_mol;
           mol := mol macro_mol + 1; optimized := optimized macro_mol;
           failed := failed macro_mol |}, None).

Definition test_globals : Globals := module_globals {[ "picky" := picky ]}.




(** A crossover method which fails when a parent has key [1] and yields
    [mol_d] otherwise. *)
Definition flaky : CrossFunc := fun parents params =>
  if existsb (fun p => Nat.eqb (key p) 1) parents
  then Raise (Exception "build failed")
  else Ok [mol_d].

Definition flaky_methods : Methods := {[ "flaky" := flaky ]}.

Definition flaky_crossover : Crossover :=
  {| funcs := [mkFunctionData "flaky" []]; weights := Some [1%Q];
     num_crossovers := 2 |}.

(** The capital letter of the placeholder [PARENTS], and the test that
    a string holds a given character. *)
Definition char_P : Ascii.ascii := Eval cbv in Ascii.ascii_of_nat 80.

Fixpoint has_char (c : Ascii.ascii) (s : string) : bool :=
  match s with
  | EmptyString => false
  | String c' s' => Ascii.eqb c c' || has_char c s'
  end.

(** ** More of [population.py]: [dump], [max], [min] *)

(** [dump]: the list representation is written to the file at [path]. *)
Definition dump (fs : gmap string JSON) (path : string) (self : Population)
    : gmap string JSON :=
  <[path := JList (tolist self)]> fs.

(** The integers which a numpy array of integers holds as they are. *)
Definition int64 (k : Z) : Prop := - 2 ^ 63 ≤ k < 2 ^ 63.

(** [np.max] and [np.min] of a list of integers of the [int64] range,
    which numpy stores exactly; wider integers turn the array into one
    of another type and are left out here. *)
Definition np_max (l : list Z) : result Z :=
  match l with
  | [] => Raise (ValueError "zero-size array to reduction operation maximum which has no identity")
  | x :: l' => Ok (foldl Z.max x l')
  end.

Definition np_min (l : list Z) : result Z :=
  match l with
  | [] => Raise (ValueError "zero-size array to reduction operation minimum which has no identity")
  | x :: l' => Ok (foldl Z.min x l')
  end.

(** [Population.max] and [Population.min], for a key which returns an
    integer. *)
Definition Population_max (self : Population) (key_ : Molecule → Z) : result Z :=
  np_max (map key_ (iter self)).

Definition Population_min (self : Population) (key_ : Molecule → Z) : result Z :=
  np_min (map key_ (iter self)).

(** ** [functional_groups.py] *)

Record Match : Type := mkMatch {
  smarts : string;
  match_n : Z
}.

Record FGInfo : Type := mkFGInfo {
  fg_name : string;
  fg_smarts : string;
  bonder_smarts : list Match;
  del_smarts : list Match
}.

Record FunctionalGroup : Type := mkFunctionalGroup {
  fg_id : Z;
  atom_ids : list Z;
  bonder_ids : list Z;
  deleter_ids : list Z;
  info : FGInfo
}.

(** [FunctionalGroup.shifted_fg] *)
Definition shifted_fg (self : FunctionalGroup) (id_ shift : Z) : FunctionalGroup :=
  {| fg_id := id_;
     atom_ids := map (fun id => id + shift) (atom_ids self);
     bonder_ids := map (fun id => id + shift) (bonder_ids self);
     deleter_ids := map (fun id => id + shift) (deleter_ids self);
     info := info self |}.

(** The dictionary [id_changes] maps an atom id to an [int] or to
    Python's [None]. *)
Abbreviation IdChanges := (gmap Z (option Z)).

(** The inner loop of [_remove_deleters] for one [atom_id], with its
    [break]. *)
Fixpoint scan_deleters (atom_id : Z) (deleters : list Z) (id_changes : IdChanges)
    : result IdChanges :=
  match deleters with
  | [] => Ok id_changes
  | deleter :: rest =>
      id_changes ←
        (if atom_id >? deleter then
           match id_changes !! atom_id with
           | Some (Some n) => Ok (<[atom_id := Some (n + 1)]> id_changes)
           | Some None =>
               Raise (TypeError "unsupported operand type(s) for +=: 'NoneType' and 'int'")
           | None => Raise (KeyError (pretty atom_id))
           end
         else if atom_id =? deleter then Ok (<[atom_id := None]> id_changes)
         else Ok id_changes);
      if atom_id <? deleter then Ok id_changes
      else scan_deleters atom_id rest id_changes
  end.

(** The outer loop. *)
Fixpoint count_changes (todo : list Z) (deleters : list Z) (id_changes : IdChanges)
    : result IdChanges :=
  match todo with
  | [] => Ok id_changes
  | atom_id :: rest =>
      id_changes ← scan_deleters atom_id deleters id_changes;
      count_changes rest deleters id_changes
  end.

(** The loop which applies the changes. *)
Fixpoint apply_changes (atom_ids_ : list Z) (id_changes : IdChanges) : result (list Z) :=
  match atom_ids_ with
  | [] => Ok []
  | atom_id :: rest =>
      match id_changes !! atom_id with
      | None => Raise (KeyError (pretty atom_id))
      | Some None => apply_changes rest id_changes
      | Some (Some change) =>
          new_atom_ids ← apply_changes rest id_changes;
          Ok ((atom_id - change) :: new_atom_ids)
      end
  end.

(** [FunctionalGroup._remove_deleters] *)
Definition _remove_deleters (atom_ids_ deleters : list Z) : result (list Z) :=
  let id_changes : IdChanges :=
    foldl (fun d atom_id => <[atom_id := Some 0]> d) ∅ atom_ids_ in
  id_changes ← count_changes atom_ids_ deleters id_changes;
  apply_changes atom_ids_ id_changes.

(** [FunctionalGroup.remove_deleters]: the three attributes are updated
    one after the other, so the object returned with an exception holds
    the attributes updated before it was raised. *)
Definition remove_deleters (self : FunctionalGroup) (deleters : list Z)
    : FunctionalGroup * option Exn :=
  match _remove_deleters (atom_ids self) deleters with
  | Raise e => (self, Some e)
  | Ok a =>
      let self := mkFunctionalGroup (fg_id self) a (bonder_ids self)
                                    (deleter_ids self) (info self) in
      match _remove_deleters (bonder_ids self) deleters with
      | Raise e => (self, Some e)
      | Ok b =>
          let self := mkFunctionalGroup (fg_id self) (atom_ids self) b
                                        (deleter_ids self) (info self) in
          match _remove_deleters (deleter_ids self) deleters with
          | Raise e => (self, Some e)
          | Ok d =>
              (mkFunctionalGroup (fg_id self) (atom_ids self)
                                 (bonder_ids self) d (info self), None)
          end
      end
  end.

(** [collections.Counter(fg_names)], whose items [ReactionKey] sorts. *)
Definition names_counter (fg_names : list string) : gmap string nat :=
  foldl (fun c nm => <[nm := S (default O (c !! nm))]> c) ∅ fg_names.

(** Python's order on the tuples [(name, count)]. *)
Definition item_leb (x y : string * nat) : bool :=
  if String.eqb x.1 y.1 then Nat.leb x.2 y.2 else String.ltb x.1 y.1.

Definition item_le (x y : string * nat) : Prop := item_leb x y = true.

#[global] Instance item_le_dec : RelDecision item_le.
Proof. intros x y. unfold item_le. apply _. Defined.

(** [ReactionKey.__init__]: the attribute [key]. *)
Definition ReactionKey (fg_names : list string) : list (string * nat) :=
  merge_sort item_le (map_to_list (names_counter fg_names)).

(** [ReactionKey.__eq__] *)
Definition ReactionKey_eq (k1 k2 : list (string * nat)) : bool :=
  bool_decide (k1 = k2).

(** ** [input.py]: [GAInput] *)

(** The attributes of a [GAInput] object are the variables which the
    input file defines, by name; their values are Python literals, for
    which the type [JSON] serves. *)
Abbreviation Namespace := (gmap string JSON).

Definition set_default (k : string) (v : JSON) (self : Namespace) : Namespace :=
  match self !! k with
  | Some _ => self
  | None => <[k := v]> self
  end.

(** [GAInput.__init__], applied to the namespace which executing the
    input file leaves. *)
Definition GAInput_init (self : Namespace) : Namespace :=
  let self := set_default "num_crossovers" (JNum 0) self in
  let self := set_default "num_mutations" (JNum 0) self in
  let self := set_default "mutation_weights" (JList [JNum 1]) self in
  let self := set_default "normalization_func" (JList []) self in
  let self := set_default "exit_func" (JDict [("NAME", JStr "no_exit")]) self in
  set_default "databases" (JList []) self.

Definition getattr (self : Namespace) (attr : string) : result JSON :=
  match self !! attr with
  | Some v => Ok v
  | None => Raise (AttributeError ("'GAInput' object has no attribute '" +:+ attr +:+ "'"))
  end.

(** A function description whose name and parameters are Python values;
    [FunctionData] is taken to store the name and the keyword parameters
    it is given. *)
Record FuncDesc : Type := mkFuncDesc {
  desc_name : JSON;
  desc_params : list (string * JSON)
}.

(** [FunctionData(x['NAME'], {k: v for k, v in x.items() if k != 'NAME'})] *)
Definition func_desc (x : JSON) : result FuncDesc :=
  match x with
  | JDict d =>
      nm ← dict_get d "NAME";
      Ok {| desc_name := nm;
            desc_params := filter (fun kv => negb (String.eqb kv.1 "NAME") = true) d |}
  | JList _ => Raise (TypeError "list indices must be integers or slices, not str")
  | JStr _ => Raise (TypeError "string indices must be integers")
  | _ => Raise (TypeError "object is not subscriptable")
  end.

Fixpoint func_descs (xs : list JSON) : result (list FuncDesc) :=
  match xs with
  | [] => Ok []
  | x :: xs' =>
      fd ← func_desc x;
      fds ← func_descs xs';
      Ok (fd :: fds)
  end.

(** [opter], [fitnessor], [initer], [exiter] *)
Definition opter (self : Namespace) : result FuncDesc :=
  getattr self "opt_func" ≫= func_desc.
Definition fitnessor (self : Namespace) : result FuncDesc :=
  getattr self "fitness_func" ≫= func_desc.
Definition initer (self : Namespace) : result FuncDesc :=
  getattr self "init_func" ≫= func_desc.
Definition exiter (self : Namespace) : result FuncDesc :=
  getattr self "exit_func" ≫= func_desc.

(** [normalizer] *)
Definition normalizer (self : Namespace) : result (list FuncDesc) :=
  xs ← getattr self "normalization_funcs" ≫= py_iter_json;
  func_descs xs.

(** [mutator]: the arguments handed to [Mutation]. *)
Definition mutator (self : Namespace) : result (list FuncDesc * JSON * JSON) :=
  xs ← getattr self "mutation_funcs" ≫= py_iter_json;
  funcs_ ← func_descs xs;
  n ← getattr self "num_mutations";
  ws ← getattr self "mutation_weights";
  Ok (funcs_, n, ws).

(** [crosser]: the arguments handed to [Crossover]. *)
Definition crosser (self : Namespace) : result (FuncDesc * JSON) :=
  func_data ← getattr self "crossover_func" ≫= func_desc;
  n ← getattr self "num_crossovers";
  Ok (func_data, n).

(** [selector]: the arguments handed to [Selection]. *)
Definition selector (self : Namespace) : result (FuncDesc * FuncDesc * FuncDesc) :=
  gen ← getattr self "generational_select_func" ≫= func_desc;
  parent ← getattr self "parent_select_func" ≫= func_desc;
  mutant ← getattr self "mutant_select_func" ≫= func_desc;
  Ok (gen, parent, mutant).

(** What [GAInput.ga_tools] hands to [GATools], its arguments being
    evaluated from left to right. *)
Record GAToolsArgs : Type := mkGAToolsArgs {
  arg_selection : FuncDesc * FuncDesc * FuncDesc;
  arg_crossover : FuncDesc * JSON;
  arg_mutation : list FuncDesc * JSON * JSON;
  arg_normalization : list FuncDesc;
  arg_optimization : FuncDesc;
  arg_fitness : FuncDesc;
  arg_exit : FuncDesc
}.

Definition GAInput_ga_tools (self : Namespace) : result GAToolsArgs :=
  s ← selector self;
  c ← crosser self;
  m ← mutator self;
  n ← normalizer self;
  o ← opter self;
  f ← fitnessor self;
  e ← exiter self;
  Ok (mkGAToolsArgs s c m n o f e).

(** ** Definitions used to state the further properties *)

(** The number of deleters below an atom id. *)
Definition smaller_deleters (deleters : list Z) (atom_id : Z) : Z :=
  Z.of_nat (length (filter (fun d => d < atom_id) deleters)).

(** What [_remove_deleters] computes: the atoms which are not deleted,
    each lowered by the number of deleters below it. *)
Definition renumbered (atom_ids_ deleters : list Z) : list Z :=
  flat_map (fun a => if decide (a ∈ deleters) then []
                     else [a - smaller_deleters deleters a]) atom_ids_.

(** JSON documents made of records and lists only. *)
Fixpoint records_and_lists (j : JSON) : bool :=
  match j with
  | JDict _ => true
  | JList l => forallb records_and_lists l
  | _ => false
  end.

(** The failure record which the wrapper writes for a molecule. *)
Definition failure_record (func : OptFunc) (m : Molecule)
    : option (Exn * Molecule * string) :=
  if optimized m then None
  else match func m with
       | (m1, Some ex) =>
           Some (ex, set_failed true (set_optimized true m1), "During optimization.")
       | (_, None) => None
       end.

(** The arguments of [__init__] by kind. *)
Definition arg_populations (args : list Arg) : list Population :=
  omap (fun a => match a with APop p => Some p | _ => None end) args.
Definition arg_members (args : list Arg) : list Molecule :=
  omap (fun a => match a with AMol m => Some m | _ => None end) args.
Definition arg_tools (args : list Arg) : GATools :=
  default GATools_init_empty
    (last (omap (fun a => match a with ATools t => Some t | _ => None end) args)).
Definition is_other (a : Arg) : bool :=
  match a with AOther _ => true | _ => false end.


(** The entry of [id_changes] for an atom after the counting loop. *)
Definition final_change (deleters : list Z) (a : Z) : option Z :=
  if decide (a ∈ deleters) then None else Some (smaller_deleters deleters a).

(** The defaults which [GAInput.__init__] fills in. *)
Definition GAInput_defaults : gmap string JSON :=
  list_to_map
    [("num_crossovers", JNum 0); ("num_mutations", JNum 0);
     ("mutation_weights", JList [JNum 1]); ("normalization_func", JList []);
     ("exit_func", JDict [("NAME", JStr "no_exit")]); ("databases", JList [])].

(** * Properties *)

(** ** Induction over population trees *)

Lemma Population_ind (P : Population → Prop) :
  (∀ pops mems t, Forall P pops → P (mkPopulation pops mems t)) →
  ∀ p, P p.
Proof.
  intros step. fix IH 1. intros [pops mems t]. apply step.
  revert pops. fix IHpops 1. intros [|q pops'].
  - constructor.
  - constructor; [apply IH | apply IHpops].
Qed.

Lemma all_members_unfold (p : Population) :
  all_members p = members p ++ concat (map all_members (populations p)).
Proof. destruct p; reflexivity. Qed.

Lemma length_concat_sum {A} (ls : list (list A)) :
  Z.of_nat (length (concat ls)) =
  foldr Z.add 0 (map (fun l => Z.of_nat (length l)) ls).
Proof.
  induction ls as [|l ls IH]; simpl; [reflexivity|].
  rewrite length_app, Nat2Z.inj_add, IH. reflexivity.
Qed.

Lemma len_unfold (p : Population) :
  len p = Z.of_nat (length (members p)) + foldr Z.add 0 (map len (populations p)).
Proof.
  unfold len. rewrite all_members_unfold, length_app, Nat2Z.inj_add.
  rewrite length_concat_sum, map_map. reflexivity.
Qed.

Lemma py_index_in_range {A} (l : list A) (i : Z) :
  0 ≤ i < Z.of_nat (length l) →
  ∃ x, l !! Z.to_nat i = Some x ∧ py_index l i = Ok x.
Proof.
  intros Hi. unfold py_index.
  destruct (Z.ltb_spec i 0) as [?|_]; [lia|].
  destruct (Z.leb_spec 0 i) as [_|?]; [|lia].
  destruct (Z.ltb_spec i (Z.of_nat (length l))) as [_|?]; [|lia].
  simpl. destruct (lookup_lt_is_Some_2 l (Z.to_nat i)) as [x Hx]; [lia|].
  exists x. rewrite Hx. split; reflexivity.
Qed.

Lemma py_index_negative {A} (l : list A) (i : Z) :
  - Z.of_nat (length l) ≤ i < 0 →
  ∃ x, l !! Z.to_nat (Z.of_nat (length l) + i) = Some x ∧ py_index l i = Ok x.
Proof.
  intros Hi. unfold py_index.
  destruct (Z.ltb_spec i 0) as [_|?]; [|lia].
  destruct (Z.leb_spec 0 (i + Z.of_nat (length l))) as [_|?]; [|lia].
  destruct (Z.ltb_spec (i + Z.of_nat (length l)) (Z.of_nat (length l))) as [_|?]; [|lia].
  simpl. rewrite (Z.add_comm (Z.of_nat (length l)) i).
  destruct (lookup_lt_is_Some_2 l (Z.to_nat (i + Z.of_nat (length l)))) as [x Hx]; [lia|].
  exists x. rewrite Hx. split; reflexivity.
Qed.

Lemma py_index_out_of_range {A} (l : list A) (i : Z) :
  i < - Z.of_nat (length l) ∨ Z.of_nat (length l) ≤ i →
  py_index l i = Raise (IndexError "list index out of range").
Proof.
  intros Hi. unfold py_index.
  destruct (Z.ltb_spec i 0).
  - destruct (Z.leb_spec 0 (i + Z.of_nat (length l))); [|reflexivity].
    destruct (Z.ltb_spec (i + Z.of_nat (length l)) (Z.of_nat (length l))); [|reflexivity].
    lia.
  - destruct (Z.leb_spec 0 i); [|reflexivity].
    destruct (Z.ltb_spec i (Z.of_nat (length l))); [lia|reflexivity].
Qed.

(** ** C7: iteration order, indexing and length *)

(** C7.  Iterating a population yields its directly held members first
    and then, subpopulation after subpopulation, the members each of them
    yields; an integer index [i] within range returns the [i]-th molecule
    of that order; and the length is the number of directly held members
    plus the lengths of the subpopulations. *)
Theorem depth_first_iteration_index_length (p : Population) (i : Z)
    (Hi : 0 ≤ i < len p) :
  iter p = members p ++ concat (map iter (populations p)) ∧
  (∃ m, iter p !! Z.to_nat i = Some m ∧ getitem p (KInt i) = Ok (IMol m)) ∧
  len p = Z.of_nat (length (iter p)) ∧
  len p = Z.of_nat (length (members p)) + foldr Z.add 0 (map len (populations p)).
Proof.
  split; [apply all_members_unfold|].
  split; [|split; [reflexivity | apply len_unfold]].
  destruct (py_index_in_range (all_members p) i Hi) as (m & Hm & Hidx).
  exists m. split; [exact Hm|].
  unfold getitem. rewrite Hidx. reflexivity.
Qed.

Example nested_pop_order : iter nested_pop = [mol_a; mol_c; mol_d; mol_b].
Proof. reflexivity. Qed.

Example nested_pop_last : getitem nested_pop (KInt (-1)) = Ok (IMol mol_b).
Proof. reflexivity. Qed.

Example nested_pop_slice :
  getitem nested_pop (KSlice (Some 1) None (Some 2)) =
  Ok (IPop (mkPopulation [] [mol_c; mol_b] (Some GATools_init_empty))).
Proof. reflexivity. Qed.

Lemma depth_first_iteration_index_length_witness :
  0 ≤ 2 < len nested_pop ∧
  getitem nested_pop (KInt 2) = Ok (IMol mol_d).
Proof.
  assert (H : 0 ≤ 2 < len nested_pop) by (change (0 ≤ 2 < 4); lia).
  split; [exact H|].
  destruct (depth_first_iteration_index_length nested_pop 2 H)
    as (_ & (m & Hm & Hget) & _).
  rewrite Hget. change (Some mol_d = Some m) in Hm.
  injection Hm as <-. reflexivity.
Defined.

(** ** C9: the list representation round-trips *)

Lemma bind_Ok {A B} (a : A) (k : A → result B) : (Ok a ≫= k) = k a.
Proof. reflexivity. Qed.

Lemma bind_Raise {A B} (e : Exn) (k : A → result B) : (Raise e ≫= k) = Raise e.
Proof. reflexivity. Qed.

Lemma fromdict_json (m : Molecule) (load_names : bool) :
  ∃ d, json m = JDict d ∧ fromdict d load_names = Ok (reload_molecule load_names m).
Proof.
  eexists. split; [reflexivity|].
  destruct m as [nm fl k ml o f], load_names; cbn; rewrite Nat2Z.id; reflexivity.
Qed.

Lemma fromlist_item_JDict (ln : bool) (pop : Population) (m : Molecule) :
  fromlist_item ln pop (json m) =
  Ok (mkPopulation (populations pop) (members pop ++ [reload_molecule ln m])
                   (ga_tools pop)).
Proof.
  destruct (fromdict_json m ln) as (d & Hd & Hfd).
  rewrite Hd. simpl. rewrite Hfd. reflexivity.
Qed.

Lemma fromlist_item_JList (ln : bool) (pop : Population) (l : list JSON) :
  fromlist_item ln pop (JList l) =
  sp ← fromlist l ln;
  Ok (mkPopulation (populations pop ++ [sp]) (members pop) (ga_tools pop)).
Proof.
  simpl. unfold fromlist.
  set (loop := fix loop (l : list JSON) (acc : Population) : result Population :=
                 match l with
                 | [] => Ok acc
                 | x :: r => acc' ← fromlist_item ln acc x; loop r acc'
                 end).
  assert (E : ∀ l acc, loop l acc = fromlist_from ln l acc).
  { clear. induction l as [|x r IH]; intros acc; simpl; [reflexivity|].
    destruct (fromlist_item ln acc x); simpl; [apply IH | reflexivity]. }
  rewrite E. reflexivity.
Qed.

Lemma fromlist_from_members (ln : bool) (mems : list Molecule) (rest : list JSON)
    (acc : Population) :
  fromlist_from ln (map json mems ++ rest) acc =
  fromlist_from ln rest
    (mkPopulation (populations acc) (members acc ++ map (reload_molecule ln) mems)
                  (ga_tools acc)).
Proof.
  revert acc. induction mems as [|m mems IH]; intros acc.
  - simpl. rewrite app_nil_r. destruct acc; reflexivity.
  - cbn [map app fromlist_from]. rewrite fromlist_item_JDict, bind_Ok, IH.
    cbn [populations members ga_tools]. rewrite <- app_assoc. reflexivity.
Qed.

Lemma fromlist_from_populations (ln : bool) (pops : list Population) (acc : Population) :
  Forall (fun sp => fromlist (tolist sp) ln = Ok (reloaded ln sp)) pops →
  fromlist_from ln (map (fun sp => JList (tolist sp)) pops) acc =
  Ok (mkPopulation (populations acc ++ map (reloaded ln) pops) (members acc)
                   (ga_tools acc)).
Proof.
  intros HF. revert acc. induction HF as [|sp pops Hsp _ IH]; intros acc.
  - simpl. rewrite app_nil_r. destruct acc; reflexivity.
  - cbn [map fromlist_from]. rewrite fromlist_item_JList, Hsp, !bind_Ok, IH.
    cbn [populations members ga_tools]. rewrite <- app_assoc. reflexivity.
Qed.

Lemma fromlist_tolist (ln : bool) (p : Population) :
  fromlist (tolist p) ln = Ok (reloaded ln p).
Proof.
  induction p as [pops mems t IH] using Population_ind.
  unfold fromlist. cbn [tolist]. rewrite fromlist_from_members.
  rewrite fromlist_from_populations by exact IH. reflexivity.
Qed.

Lemma iter_reloaded (ln : bool) (p : Population) :
  iter (reloaded ln p) = map (reload_molecule ln) (iter p).
Proof.
  unfold iter. induction p as [pops mems t IH] using Population_ind.
  cbn [reloaded all_members]. rewrite map_app. f_equal.
  induction IH as [|sp pops Hsp _ IHpops]; [reflexivity|].
  cbn [map concat]. rewrite map_app, Hsp, IHpops. reflexivity.
Qed.

(** C9.  [fromlist(p.tolist())] returns a population and rebuilds the
    tree of [p]: [tolist] writes the directly held members as records
    followed by one nested list per subpopulation, and [fromlist] turns
    the records back into members and the nested lists back into
    subpopulations, in the same positions.  With [load_names=True] the
    molecules come back as they were; with [load_names=False] every
    molecule comes back without its persisted name. *)
Theorem fromlist_tolist_round_trip (p : Population) (load_names : bool) :
  tolist p = map json (members p) ++ map (fun sp => JList (tolist sp)) (populations p) ∧
  fromlist (tolist p) load_names = Ok (reloaded load_names p) ∧
  members (reloaded load_names p) = map (reload_molecule load_names) (members p) ∧
  populations (reloaded load_names p) = map (reloaded load_names) (populations p) ∧
  iter (reloaded true p) = iter p ∧
  Forall (fun m => name m = fresh_name) (iter (reloaded false p)).
Proof.
  split; [destruct p; reflexivity|].
  split; [apply fromlist_tolist|].
  split; [destruct p; reflexivity|].
  split; [destruct p; reflexivity|].
  split.
  - rewrite iter_reloaded. apply map_id.
  - rewrite iter_reloaded. apply Forall_map, Forall_true. reflexivity.
Qed.

Example nested_pop_tolist_shape :
  tolist nested_pop =
  [json mol_a; JList [json mol_c; JList [json mol_d]]; JList [json mol_b]].
Proof. reflexivity. Qed.

Example fromlist_rejects_scalars :
  fromlist [json mol_a; JStr "b"] true =
  Raise (TypeError "Population list must consist only of strings and lists.").
Proof. reflexivity. Qed.

(** ** C10: [load] overwrites [ga_tools] *)

Lemma Population_init_tools (args : list Arg) (p : Population) :
  Population_init args = Ok p → ga_tools p ≠ None.
Proof.
  unfold Population_init.
  assert (G : ∀ acc, (∀ q, acc = Ok q → ga_tools q ≠ None) →
              fold_left init_step args acc = Ok p → ga_tools p ≠ None).
  { induction args as [|a args IH]; intros acc Hacc; simpl.
    - intros H. apply (Hacc p H).
    - apply IH. intros q. destruct acc as [self|e]; simpl; [|discriminate].
      destruct a; simpl; intros [= <-]; simpl; try discriminate;
        apply (Hacc self eq_refl). }
  apply G. intros q [= <-]. discriminate.
Qed.

Lemma fromlist_from_tools (ln : bool) (l : list JSON) (acc p : Population) :
  fromlist_from ln l acc = Ok p → ga_tools p = ga_tools acc.
Proof.
  revert acc. induction l as [|x l IH]; intros acc; simpl.
  - intros [= <-]. reflexivity.
  - destruct (fromlist_item ln acc x) as [acc'|e] eqn:E; simpl; [|discriminate].
    intros H. rewrite (IH _ H). clear H IH.
    destruct x; try discriminate E.
    + rewrite fromlist_item_JList in E.
      destruct (fromlist items ln); simpl in E; [|discriminate].
      injection E as <-. reflexivity.
    + simpl in E. destruct (fromdict fields ln); simpl in E; [|discriminate].
      injection E as <-. reflexivity.
Qed.

(** C10.  [load] assigns its [ga_tools] argument to the population it
    returns whatever that argument is: when the file holds a list which
    [fromlist] accepts, [load] returns the population [fromlist] built
    with its [ga_tools] replaced by the argument, so with the default
    [None] the loaded population holds [None], although the population
    [fromlist] built, like every population built by [__init__], held a
    [GATools] object. *)
Theorem load_overwrites_ga_tools (fs : gmap string JSON) (path : string)
    (pop_list : list JSON) (tools : option GATools) (load_names : bool)
    (pop : Population)
    (Hfile : fs !! path = Some (JList pop_list))
    (Hpop : fromlist pop_list load_names = Ok pop) :
  load fs path tools load_names =
    Ok (mkPopulation (populations pop) (members pop) tools) ∧
  (∃ loaded, load fs path None load_names = Ok loaded ∧ ga_tools loaded = None) ∧
  ga_tools pop = Some GATools_init_empty ∧
  (∀ args q, Population_init args = Ok q → ga_tools q ≠ None).
Proof.
  assert (L : ∀ t, load fs path t load_names =
                   Ok (mkPopulation (populations pop) (members pop) t)).
  { intros t. unfold load. rewrite Hfile. simpl. rewrite Hpop. reflexivity. }
  split; [apply L|]. split.
  - eexists. split; [apply L | reflexivity].
  - split; [apply (fromlist_from_tools _ _ _ _ Hpop) | apply Population_init_tools].
Qed.

Lemma load_overwrites_ga_tools_witness :
  load dumped_fs "pop.json" None true =
  Ok (mkPopulation (populations (reloaded true nested_pop))
                   (members (reloaded true nested_pop)) None).
Proof.
  apply (load_overwrites_ga_tools dumped_fs "pop.json" (tolist nested_pop)
           None true (reloaded true nested_pop)).
  - reflexivity.
  - reflexivity.
Defined.

(** ** C4: subtraction keeps the novel molecules *)

Lemma same_refl (m : Molecule) : same m m = true.
Proof. apply Nat.eqb_refl. Qed.

Lemma same_sym (a b : Molecule) : same a b = same b a.
Proof. apply Nat.eqb_sym. Qed.

Lemma contains_spec (p : Population) (item : Molecule) :
  contains p item = true ↔ ∃ m, m ∈ iter p ∧ same item m = true.
Proof.
  unfold contains, iter. rewrite existsb_exists.
  split; intros (m & Hm & Hs); exists m; (split; [|exact Hs]);
    apply list_elem_of_In; exact Hm.
Qed.

Lemma contains_false_spec (p : Population) (item : Molecule) :
  contains p item = false ↔ ∀ m, m ∈ iter p → same item m = false.
Proof.
  split.
  - intros Hc m Hm. destruct (same item m) eqn:E; [|reflexivity].
    rewrite <- Hc. symmetry. apply contains_spec. eauto.
  - intros H. destruct (contains p item) eqn:E; [|reflexivity].
    apply contains_spec in E as (m & Hm & Hs). rewrite (H m Hm) in Hs.
    discriminate.
Qed.

Lemma iter_append_member (self : Population) (x : Molecule) (m : Molecule) :
  m ∈ iter (append_member self x) ↔ m ∈ iter self ∨ m = x.
Proof.
  unfold iter. destruct self as [pops mems t]. cbn [append_member all_members
    populations members ga_tools].
  rewrite !elem_of_app, list_elem_of_singleton. tauto.
Qed.

Lemma populations_extend_unique (self : Population) (mols : list Molecule) :
  populations (extend_unique self mols) = populations self ∧
  ga_tools (extend_unique self mols) = ga_tools self.
Proof.
  revert self. induction mols as [|m mols IH]; intros self; simpl; [auto|].
  destruct (contains self m); [apply IH|].
  destruct (IH (append_member self m)) as [-> ->]. auto.
Qed.

(** Every molecule held after [extend_unique] was held before or is one
    of the molecules offered. *)
Lemma extend_unique_sound (self : Population) (mols : list Molecule) (r : Molecule) :
  r ∈ iter (extend_unique self mols) → r ∈ iter self ∨ r ∈ mols.
Proof.
  revert self. induction mols as [|m mols IH]; intros self; simpl; [auto|].
  destruct (contains self m).
  - intros H. destruct (IH _ H); [auto | right; by apply elem_of_cons; right].
  - intros H. destruct (IH _ H) as [H'|H'].
    + apply iter_append_member in H' as [?| ->]; [auto|].
      right. apply list_elem_of_here.
    + right. by apply elem_of_cons; right.
Qed.

Lemma extend_unique_mono (self : Population) (mols : list Molecule) (o : Molecule) :
  contains self o = true → contains (extend_unique self mols) o = true.
Proof.
  revert self. induction mols as [|m mols IH]; intros self H; simpl; [exact H|].
  destruct (contains self m); apply IH; [exact H|].
  apply contains_spec in H as (x & Hx & Hs). apply contains_spec.
  exists x. split; [apply iter_append_member; auto | exact Hs].
Qed.

(** Every molecule offered to [extend_unique] is afterwards found by the
    [in] test. *)
Lemma extend_unique_complete (self : Population) (mols : list Molecule) (o : Molecule) :
  o ∈ mols → contains (extend_unique self mols) o = true.
Proof.
  revert self. induction mols as [|m mols IH]; intros self Ho.
  - by apply elem_of_nil in Ho.
  - apply elem_of_cons in Ho as [->|Ho]; simpl.
    + destruct (contains self m) eqn:E; apply extend_unique_mono; [exact E|].
      apply contains_spec. exists m.
      split; [apply iter_append_member; auto | apply same_refl].
    + destruct (contains self m); apply IH; exact Ho.
Qed.

(** The molecules added by [extend_unique] are pairwise different under
    [same]: of equal molecules only the first is taken. *)
Lemma extend_unique_first_wins (self : Population) (mols : list Molecule) :
  populations self = [] →
  NoDup (map key (members self)) →
  NoDup (map key (members (extend_unique self mols))).
Proof.
  revert self. induction mols as [|m mols IH]; intros self Hflat Hnd; simpl;
    [exact Hnd|].
  destruct (contains self m) eqn:E; [by apply IH|].
  apply IH; [destruct self; exact Hflat|].
  destruct self as [pops mems t]. simpl in *. subst pops.
  rewrite map_app. simpl. apply NoDup_app. split; [exact Hnd|].
  split; [|apply NoDup_singleton].
  intros k Hk Hk'. apply list_elem_of_singleton in Hk' as ->.
  apply list_elem_of_fmap in Hk as (x & Hkey & Hx).
  pose proof (proj1 (contains_false_spec _ _) E x) as Hs.
  unfold iter in Hs. simpl in Hs. rewrite app_nil_r in Hs.
  specialize (Hs Hx). unfold same in Hs. apply Nat.eqb_neq in Hs. congruence.
Qed.

Lemma Population_of_tools_Some (t : GATools) :
  Population_of_tools (Some t) = Ok (mkPopulation [] [] (Some t)).
Proof. reflexivity. Qed.


Lemma iter_extend_unique_mono (self : Population) (mols : list Molecule)
    (m : Molecule) :
  m ∈ iter self → m ∈ iter (extend_unique self mols).
Proof.
  revert self. induction mols as [|x mols IH]; intros self Hm; simpl; [exact Hm|].
  destruct (contains self x); apply IH; [exact Hm|].
  apply iter_append_member. auto.
Qed.

Lemma contains_append_member (self : Population) (x o : Molecule) :
  contains self o = false → same o x = false →
  contains (append_member self x) o = false.
Proof.
  intros Hc Hs. apply contains_false_spec. intros m Hm.
  apply iter_append_member in Hm as [Hm| ->]; [|exact Hs].
  apply (proj1 (contains_false_spec self o) Hc m Hm).
Qed.

(** A molecule offered to [extend_unique] is appended itself when neither
    the population nor a molecule offered before it matches it. *)
Lemma extend_unique_keeps_first (self : Population) (pre post : list Molecule)
    (o : Molecule) :
  contains self o = false →
  (∀ x, x ∈ pre → same o x = false) →
  o ∈ iter (extend_unique self (pre ++ o :: post)).
Proof.
  revert self. induction pre as [|x pre IH]; intros self Hc Hpre.
  - simpl. rewrite Hc. apply iter_extend_unique_mono, iter_append_member. auto.
  - cbn [app extend_unique].
    assert (Hx : same o x = false) by apply Hpre, list_elem_of_here.
    assert (Hrest : ∀ y, y ∈ pre → same o y = false).
    { intros y Hy. apply Hpre. by apply elem_of_cons; right. }
    destruct (contains self x); apply IH; auto.
    apply contains_append_member; assumption.
Qed.

(** C4, as the code has it.  For a population [O] which holds a
    [GATools] object and any population [T], [O - T] returns a flat
    population.  Every molecule it holds comes from [O] and is [same] as
    no molecule of [T].  For every molecule of [O] which is [same] as no
    molecule of [T] it holds a molecule with that fingerprint: the
    molecule itself when no molecule iterated before it in [O] has its
    fingerprint, and otherwise the first molecule of [O] with it, for no
    two molecules of the result have the same fingerprint. *)
Theorem sub_keeps_exactly_the_novel (O T : Population) (tools : GATools)
    (Htools : ga_tools O = Some tools) :
  ∃ R, sub O T = Ok R ∧
    populations R = [] ∧
    (∀ r, r ∈ iter R →
       r ∈ iter O ∧ ∀ t, t ∈ iter T → same r t = false ∧ same t r = false) ∧
    (∀ o, o ∈ iter O → (∀ t, t ∈ iter T → same o t = false) →
       ∃ r, r ∈ iter R ∧ same o r = true) ∧
    (∀ pre o post, iter O = pre ++ o :: post →
       (∀ x, x ∈ pre → same o x = false) →
       (∀ t, t ∈ iter T → same o t = false) →
       o ∈ iter R) ∧
    NoDup (map key (iter R)).
Proof.
  unfold sub. rewrite Htools, Population_of_tools_Some, bind_Ok.
  unfold add_members.
  set (novel := filter (fun m => negb (contains T m) = true) (all_members O)).
  set (new_pop := mkPopulation [] [] (Some tools)).
  exists (extend_unique new_pop novel).
  split; [reflexivity|].
  assert (Hflat : populations (extend_unique new_pop novel) = []).
  { apply (populations_extend_unique new_pop novel). }
  split; [exact Hflat|]. split; [|split; [|split]].
  - intros r Hr. apply extend_unique_sound in Hr as [Hr|Hr].
    { by apply elem_of_nil in Hr. }
    apply list_elem_of_filter in Hr as [Hnot HO].
    apply negb_true_iff in Hnot.
    split; [exact HO|].
    intros t Ht. rewrite (same_sym t r).
    pose proof (proj1 (contains_false_spec T r) Hnot t Ht). auto.
  - intros o Ho Hnot. apply contains_spec, extend_unique_complete.
    apply list_elem_of_filter. split; [|exact Ho].
    apply negb_true_iff, contains_false_spec, Hnot.
  - intros pre o post Hsplit Hpre Hnot. unfold novel.
    change (all_members O) with (iter O). rewrite Hsplit, filter_app, filter_cons.
    rewrite decide_True
      by (apply negb_true_iff, contains_false_spec, Hnot).
    apply extend_unique_keeps_first; [reflexivity|].
    intros x Hx. apply list_elem_of_filter in Hx as [_ Hx]. apply Hpre, Hx.
  - unfold iter. rewrite all_members_unfold, Hflat. simpl. rewrite app_nil_r.
    apply extend_unique_first_wins; [reflexivity | apply NoDup_nil_2].
Qed.

(** Against C4 as a statement about every member of [O]: [mol_b'] is in
    [O] and matches no molecule of [T], yet [O - T] does not hold it,
    because [mol_b], which has its fingerprint, was added before it. *)
Lemma sub_drops_a_repeated_fingerprint :
  ∃ R, sub (flat_pop [mol_b; mol_b']) (flat_pop [mol_a]) = Ok R ∧
       mol_b' ∈ iter (flat_pop [mol_b; mol_b']) ∧
       (∀ t, t ∈ iter (flat_pop [mol_a]) → same mol_b' t = false) ∧
       mol_b' ∉ iter R.
Proof.
  exists (flat_pop [mol_b]). split; [reflexivity|]. split; [|split].
  - apply elem_of_cons. right. apply list_elem_of_here.
  - intros t Ht. apply list_elem_of_singleton in Ht as ->. reflexivity.
  - intros H. apply list_elem_of_singleton in H. discriminate.
Qed.

Example offspring_collides_with_parent :
  sub (flat_pop [mol_a'; mol_b; mol_b'; mol_d]) nested_pop = Ok (flat_pop []) ∧
  sub (flat_pop [mol_a'; mol_b; mol_b'; mol_d]) (flat_pop [mol_a]) =
    Ok (flat_pop [mol_b; mol_d]).
Proof. split; reflexivity. Qed.

Example sub_without_tools_raises :
  is_ok (sub (mkPopulation [] [mol_b] None) (flat_pop [mol_a])) = false.
Proof. reflexivity. Qed.

Lemma sub_keeps_exactly_the_novel_witness :
  ∃ R, sub (flat_pop [mol_a'; mol_b; mol_b'; mol_d]) (flat_pop [mol_a]) = Ok R ∧
       populations R = [].
Proof.
  destruct (sub_keeps_exactly_the_novel
              (flat_pop [mol_a'; mol_b; mol_b'; mol_d]) (flat_pop [mol_a])
              GATools_init_empty eq_refl) as (R & HR & Hflat & _).
  exists R. split; [exact HR | exact Hflat].
Defined.

(** ** C8: the size of the next generation *)

Lemma len_append_member (p : Population) (m : Molecule) :
  len (append_member p m) = len p + 1.
Proof.
  unfold len. destruct p as [pops mems t]. cbn [append_member all_members
    populations members ga_tools].
  rewrite !length_app. simpl. lia.
Qed.

Lemma len_nonneg (p : Population) : 0 ≤ len p.
Proof. unfold len. lia. Qed.

Lemma len_add_one (p : Population) (m : Molecule) :
  len (add_members p [m] false) = len p ∨
  len (add_members p [m] false) = len p + 1.
Proof.
  simpl. destruct (contains p m); [left; reflexivity|].
  right. apply len_append_member.
Qed.

Lemma extend_unique_cons (p : Population) (m : Molecule) (l : list Molecule) :
  extend_unique p (m :: l) = extend_unique (add_members p [m] false) l.
Proof. simpl. destruct (contains p m); reflexivity. Qed.

Lemma counter_total_add (c : Counter) (m : Molecule) (n : Z) :
  counter_total (counter_add c m n) = counter_total c + n.
Proof.
  induction c as [|[m' k] c IH]; simpl; [lia|].
  destruct (decide (m' = m)); simpl; lia.
Qed.

Lemma counter_total_fill (c : Counter) (ms : list Molecule) :
  counter_total (counter_fill c ms) = counter_total c.
Proof.
  unfold counter_fill. revert c.
  induction ms as [|m ms IH]; intros c; simpl; [reflexivity|].
  rewrite IH. destruct (counter_has c m); [reflexivity|].
  rewrite counter_total_add. lia.
Qed.

(** The loop invariant of [gen_next_gen]: while the loop runs the new
    generation is smaller than [pop_size]. *)
Lemma next_gen_loop_spec (pop_size : Z) (selected : list Molecule)
    (new_gen : Population) (counter : Counter) :
  len new_gen < pop_size →
  ∃ n : nat,
    (n ≤ length selected)%nat ∧
    counter_total (next_gen_loop pop_size selected new_gen counter).2 =
      counter_total counter + Z.of_nat n ∧
    (next_gen_loop pop_size selected new_gen counter).1 =
      extend_unique new_gen (take n selected) ∧
    len (next_gen_loop pop_size selected new_gen counter).1 ≤ pop_size ∧
    (len (next_gen_loop pop_size selected new_gen counter).1 = pop_size ∨
     n = length selected) ∧
    (∀ k : nat, (k < n)%nat →
       len (extend_unique new_gen (take k selected)) < pop_size).
Proof.
  revert new_gen counter.
  induction selected as [|member rest IH]; intros new_gen counter Hlt.
  - exists O. simpl. repeat split; lia.
  - cbn [next_gen_loop].
    pose proof (len_add_one new_gen member) as Hstep.
    destruct (Z.eqb_spec (len (add_members new_gen [member] false)) pop_size)
      as [Heq|Hne].
    + exists 1%nat. cbn [fst snd take length].
      split; [lia|]. split.
      { unfold counter_update. simpl. rewrite counter_total_add. lia. }
      split; [reflexivity|]. split; [lia|]. split; [left; exact Heq|].
      intros k Hk. replace k with O by lia. simpl. exact Hlt.
    + destruct (IH (add_members new_gen [member] false)
                   (counter_update counter [member])) as
        (n & Hn & Htot & Hgen & Hle & Hstop & Hmin); [lia|].
      exists (S n). cbn [length].
      split; [lia|]. split.
      { rewrite Htot. unfold counter_update. simpl.
        rewrite counter_total_add. lia. }
      split; [rewrite Hgen, firstn_cons, extend_unique_cons; reflexivity|].
      split; [exact Hle|]. split; [destruct Hstop; [left|right]; congruence|].
      intros [|k] Hk; [simpl; exact Hlt|].
      rewrite firstn_cons, extend_unique_cons. apply Hmin. lia.
Qed.

(** C8, for target sizes of at least one.  For a population which holds
    a [GATools] object with a selection configured and a target size
    [pop_size >= 1],
    [gen_next_gen] returns without an error a population of at most
    [pop_size] members: it is built from the first [n] molecules the
    generational selection yields (added unless already held), where
    the size [pop_size] is first reached at the [n]-th molecule or the
    selection is exhausted after [n] molecules, and exactly [n]
    molecules are drawn; an under-filled population is returned as it is. *)
Theorem gen_next_gen_at_most_pop_size
    (engine : FunctionData → SelectionEngine) (self : Population) (pop_size : Z)
    (tools : GATools) (fd : FunctionData)
    (Htools : ga_tools self = Some tools)
    (Hsel : selection tools = Some fd)
    (Hsize : 1 ≤ pop_size) :
  ∃ (new_gen : Population) (tally : Counter) (n : nat),
    gen_next_gen engine self pop_size = Ok (new_gen, tally) ∧
    len new_gen ≤ pop_size ∧
    (n ≤ length (sel_generational (engine fd) self))%nat ∧
    counter_total tally = Z.of_nat n ∧
    new_gen = extend_unique (mkPopulation [] [] (Some tools))
                (take n (sel_generational (engine fd) self)) ∧
    (len new_gen = pop_size ∨ n = length (sel_generational (engine fd) self)) ∧
    (∀ k : nat, (k < n)%nat →
       len (extend_unique (mkPopulation [] [] (Some tools))
              (take k (sel_generational (engine fd) self))) < pop_size).
Proof.
  unfold gen_next_gen, select_generational, selection_of.
  rewrite Htools, Hsel, Population_of_tools_Some. simpl.
  set (selected := sel_generational (engine fd) self).
  set (start := mkPopulation [] [] (Some tools)).
  destruct (next_gen_loop_spec pop_size selected start [])
    as (n & Hn & Htot & Hgen & Hle & Hstop & Hmin).
  { change (len start) with 0. lia. }
  destruct (next_gen_loop pop_size selected start []) as [new_gen counter].
  simpl in *. exists new_gen, (counter_fill counter (iter self)), n.
  rewrite counter_total_fill.
  repeat split; auto.
Qed.

Example gen_next_gen_stops_at_two :
  (gen_next_gen in_order (ga_pop [mol_a; mol_a'; mol_b; mol_d]) 2 ≫= fun r => Ok (members r.1)) =
  Ok [mol_a; mol_b].
Proof. reflexivity. Qed.

Example gen_next_gen_under_filled :
  (gen_next_gen in_order (ga_pop [mol_a; mol_a'; mol_b]) 5 ≫= fun r => Ok (members r.1)) =
  Ok [mol_a; mol_b].
Proof. reflexivity. Qed.

(** With the target size [0] the test [len(new_gen) == pop_size] never
    holds after a molecule is added, and the whole selection is taken. *)
Lemma gen_next_gen_exceeds_pop_size_zero :
  ∃ new_gen tally,
    gen_next_gen in_order (ga_pop [mol_a; mol_b]) 0 = Ok (new_gen, tally) ∧
    members new_gen = [mol_a; mol_b] ∧
    ¬ len new_gen ≤ 0.
Proof.
  eexists _, _. split; [reflexivity|]. split; [reflexivity|].
  change (¬ 2 ≤ 0). lia.
Qed.

Lemma gen_next_gen_at_most_pop_size_witness :
  ∃ new_gen tally,
    gen_next_gen in_order (ga_pop [mol_a; mol_a'; mol_b; mol_d]) 2 = Ok (new_gen, tally) ∧
    len new_gen ≤ 2.
Proof.
  destruct (gen_next_gen_at_most_pop_size in_order
              (ga_pop [mol_a; mol_a'; mol_b; mol_d]) 2 tools_with_selection
              (mkFunctionData "in_order" []) eq_refl eq_refl ltac:(lia))
    as (new_gen & tally & n & Hrun & Hle & _).
  exists new_gen, tally. split; [exact Hrun | exact Hle].
Defined.

(** ** The optimization pipeline: C1, C2, C3 *)

Lemma call_returns (self : OptimizationFunc) (m : Molecule) (w : World) :
  (OptimizationFunc_call self m w).1.2 = call_result (wrapped self) m ∧
  wrapped (OptimizationFunc_call self m w).1.1 = wrapped self.
Proof.
  unfold call_result, OptimizationFunc_call. simpl.
  destruct (optimized m); [split; reflexivity|].
  destruct (wrapped self m) as [m1 [ex|]]; split; reflexivity.
Qed.

Lemma call_result_skipped (func : OptFunc) (m : Molecule) :
  optimized m = true → call_result func m = m.
Proof.
  intros H. unfold call_result, OptimizationFunc_call. rewrite H. reflexivity.
Qed.

Lemma call_result_raised (func : OptFunc) (m m1 : Molecule) (ex : Exn) :
  optimized m = false → func m = (m1, Some ex) →
  call_result func m = set_failed true (set_optimized true m1).
Proof.
  intros H E. unfold call_result, OptimizationFunc_call. simpl.
  rewrite H, E. reflexivity.
Qed.

Lemma call_result_returned (func : OptFunc) (m m1 : Molecule) :
  optimized m = false → func m = (m1, None) → call_result func m = m1.
Proof.
  intros H E. unfold call_result, OptimizationFunc_call. simpl.
  rewrite H, E. reflexivity.
Qed.

Lemma serial_run_map (p_func : OptimizationFunc) (ms : list Molecule) (w : World) :
  (serial_run p_func ms w).1 = map (call_result (wrapped p_func)) ms.
Proof.
  revert p_func w. induction ms as [|m ms IH]; intros p_func w; [reflexivity|].
  cbn [serial_run map].
  destruct (call_returns p_func m w) as [Hm Hw].
  destruct (OptimizationFunc_call p_func m w) as [[p_func' m'] w'].
  simpl in Hm, Hw. specialize (IH p_func' w').
  destruct (serial_run p_func' ms w') as [out w'']. simpl in *.
  rewrite Hm, IH, Hw. reflexivity.
Qed.

Lemma pool_map_map (p_func : OptimizationFunc) (ms : list Molecule) (w : World) :
  (pool_map p_func ms w).1 = map (call_result (wrapped p_func)) ms.
Proof.
  revert w. induction ms as [|m ms IH]; intros w; [reflexivity|].
  cbn [pool_map map].
  destruct (call_returns p_func m w) as [Hm _].
  destruct (OptimizationFunc_call p_func m w) as [[p_func' m'] w'].
  simpl in Hm. specialize (IH w').
  destruct (pool_map p_func ms w') as [out w'']. simpl in *.
  rewrite Hm, IH. reflexivity.
Qed.

(** Both entry points return, member by member, what the wrapper returns. *)
Lemma optimize_all_returns (G : Globals) (fd : FunctionData)
    (func : list (string * Z) → OptFunc) (p : Population) (w : World) :
  G !! fd_name fd = Some func →
  ∃ w1 w2,
    _optimize_all G fd p w =
      Ok (map (call_result (func (fd_params fd))) (iter p), w1) ∧
    _optimize_all_serial G fd p w =
      Ok (map (call_result (func (fd_params fd))) (iter p), w2).
Proof.
  intros Hfunc. unfold _optimize_all, _optimize_all_serial, make_p_func.
  rewrite Hfunc. simpl.
  set (p_func := OptimizationFunc_init (func (fd_params fd))).
  pose proof (pool_map_map p_func (iter p) w) as Hpool.
  pose proof (serial_run_map p_func (iter p) w) as Hser.
  destruct (pool_map p_func (iter p) w) as [out1 w1].
  destruct (serial_run p_func (iter p) w) as [out2 w2].
  simpl in *. subst out1 out2. eauto.
Qed.

(** C1.  When the function named by [func_data] exists, [_optimize_all]
    and [_optimize_all_serial] return (they do not raise) the same list:
    one molecule for each member of the population, in the order of
    iteration.  A member on which the function is run and raises comes
    back with [failed] and [optimized] both [True]; a member on which it
    is run and returns comes back as the function left it, whatever
    happens to the other members; a member already optimized comes back
    as it was. *)
Theorem optimize_all_isolates_failures (G : Globals) (fd : FunctionData)
    (func : list (string * Z) → OptFunc) (p : Population) (w : World)
    (Hfunc : G !! fd_name fd = Some func) :
  ∃ out w1 w2,
    _optimize_all G fd p w = Ok (out, w1) ∧
    _optimize_all_serial G fd p w = Ok (out, w2) ∧
    length out = length (iter p) ∧
    ∀ (i : nat) (m : Molecule), iter p !! i = Some m →
      ∃ m', out !! i = Some m' ∧
        (∀ m1 ex, optimized m = false → func (fd_params fd) m = (m1, Some ex) →
           m' = set_failed true (set_optimized true m1) ∧
           failed m' = true ∧ optimized m' = true) ∧
        (∀ m1, optimized m = false → func (fd_params fd) m = (m1, None) →
           m' = m1) ∧
        (optimized m = true → m' = m).
Proof.
  destruct (optimize_all_returns G fd func p w Hfunc) as (w1 & w2 & H1 & H2).
  eexists _, w1, w2. split; [exact H1|]. split; [exact H2|].
  split; [apply length_map|].
  intros i m Hi. exists (call_result (func (fd_params fd)) m).
  split; [rewrite list_lookup_fmap, Hi; reflexivity|].
  split; [|split].
  - intros m1 ex Hopt Hraise.
    rewrite (call_result_raised _ _ _ _ Hopt Hraise). auto.
  - intros m1 Hopt Hret. apply (call_result_returned _ _ _ Hopt Hret).
  - apply call_result_skipped.
Qed.

Example pipeline_failure_isolation :
  (_optimize_all test_globals (mkFunctionData "picky" [])
     (flat_pop [mol_a; mol_b]) world0 ≫= fun r => Ok (r.1, failures r.2)) =
  Ok ([set_failed true (set_optimized true mol_a);
       {| name := "b"; file := "b.mol"; key := 2; mol := 21;
          optimized := false; failed := false |}],
      [(Exception "no convergence", set_failed true (set_optimized true mol_a),
        "During optimization.")]).
Proof. reflexivity. Qed.

Example unknown_function_raises :
  _optimize_all_serial test_globals (mkFunctionData "no_such_function" [])
    (flat_pop [mol_a]) world0 = Raise (KeyError "no_such_function").
Proof. reflexivity. Qed.

Lemma optimize_all_isolates_failures_witness :
  ∃ out w1,
    _optimize_all test_globals (mkFunctionData "picky" [])
      (flat_pop [mol_a; mol_b]) world0 = Ok (out, w1) ∧
    length out = 2%nat.
Proof.
  destruct (optimize_all_isolates_failures test_globals
              (mkFunctionData "picky" []) picky (flat_pop [mol_a; mol_b])
              world0 eq_refl) as (out & w1 & w2 & H1 & _ & Hlen & _).
  exists out, w1. split; [exact H1 | exact Hlen].
Defined.

(** C3.  A member whose [optimized] flag is [True] before the run is
    returned unchanged by both entry points, at its position, and the
    wrapper does not apply the wrapped function to it: whatever that
    function is, the call prints [Skipping] and returns the molecule and
    the wrapper as they are. *)
Theorem optimized_member_is_skipped (G : Globals) (fd : FunctionData)
    (func : list (string * Z) → OptFunc) (p : Population) (w : World)
    (i : nat) (c : Molecule)
    (Hfunc : G !! fd_name fd = Some func)
    (Hc : iter p !! i = Some c)
    (Hopt : optimized c = true) :
  (∃ out w1 w2,
     _optimize_all G fd p w = Ok (out, w1) ∧
     _optimize_all_serial G fd p w = Ok (out, w2) ∧
     out !! i = Some c) ∧
  (∀ self w', OptimizationFunc_call self c w' =
                (self, c, print ("Skipping " +:+ file c) w')).
Proof.
  split.
  - destruct (optimize_all_returns G fd func p w Hfunc) as (w1 & w2 & H1 & H2).
    eexists _, w1, w2. split; [exact H1|]. split; [exact H2|].
    rewrite list_lookup_fmap, Hc. simpl.
    rewrite (call_result_skipped _ _ Hopt). reflexivity.
  - intros self w'. unfold OptimizationFunc_call. rewrite Hopt. reflexivity.
Qed.

Lemma optimized_member_is_skipped_witness :
  ∃ out w1,
    _optimize_all test_globals (mkFunctionData "raiser" [("param1", 1)])
      (flat_pop [mol_b; mol_c]) world0 = Ok (out, w1) ∧
    out !! 1%nat = Some mol_c.
Proof.
  destruct (optimized_member_is_skipped test_globals
              (mkFunctionData "raiser" [("param1", 1)]) raiser
              (flat_pop [mol_b; mol_c]) world0 1%nat mol_c
              eq_refl eq_refl eq_refl) as ((out & w1 & w2 & H1 & _ & Hout) & _).
  exists out, w1. split; [exact H1 | exact Hout].
Defined.

(** The success branch of the wrapper.  When the wrapped function returns, the wrapper
    assigns [True] to its own attribute [optimized] and leaves the flag
    of the molecule as the function left it. *)
Lemma successful_call_sets_the_wrapper_flag (self : OptimizationFunc)
    (m m1 : Molecule) (w : World) :
  optimized m = false → wrapped self m = (m1, None) →
  OptimizationFunc_call self m w =
    (mkOptimizationFunc (wrapped self) (Some true), m1,
     print (nl +:+ "Optimizing " +:+ file m +:+ ".") w).
Proof.
  intros Hopt Hret. unfold OptimizationFunc_call. rewrite Hopt, Hret. reflexivity.
Qed.

(** C2, at the failing input: [do_not_optimize] succeeds on [mol_a], the
    molecule comes back with [optimized] still [False], and a second run
    over the returned molecule applies the function to it again. *)
Lemma successful_optimization_is_repeated :
  ∃ out w1 out2 w2,
    _optimize_all_serial test_globals (mkFunctionData "do_not_optimize" [])
      (flat_pop [mol_a]) world0 = Ok (out, w1) ∧
    out = [mol_a] ∧ optimized mol_a = false ∧
    _optimize_all_serial test_globals (mkFunctionData "do_not_optimize" [])
      (flat_pop out) w1 = Ok (out2, w2) ∧
    stdout w2 = [nl +:+ "Optimizing a.mol."; nl +:+ "Optimizing a.mol."].
Proof.
  eexists _, _, _, _. repeat split; reflexivity.
Qed.

(** ** The crossover dispatcher: C5, C6 *)

Lemma take_every_one {A} (l : list A) : take_every 1 0 l = l.
Proof. induction l as [|x l IH]; simpl; [reflexivity|]. rewrite IH. reflexivity. Qed.

Lemma islice_stop {A} (l : list A) (n : Z) :
  0 ≤ n → islice l None (Some n) None = Ok (take (Z.to_nat n) l).
Proof.
  intros Hn. unfold islice. simpl.
  destruct (Z.ltb_spec n 0); [lia|]. simpl.
  rewrite take_every_one. reflexivity.
Qed.



(** *** C5 *)

(** Against C5 as a property of [__init__]: it accepts one weight for
    two functions, and the error is first raised by the call. *)
Lemma crossover_init_accepts_mismatched_weights :
  let fs := [mkFunctionData "bb_lk_exchange" []; mkFunctionData "other" []] in
  weights_well_formed fs [1%Q] = false ∧
  ∃ c, Crossover_init fs 1 (Some [1%Q]) = Ok c ∧
       Crossover_call in_order ∅ c (ga_pop [mol_a; mol_b]) "" world0 =
         Raise (ValueError "'a' and 'p' must have same size").
Proof. split; [reflexivity|]. eexists. split; reflexivity. Qed.

Lemma clearly_invalid_weights_raise (fs : list FunctionData) (ws : list Q) (u : Q) :
  weights_clearly_invalid fs ws = true →
  ∃ msg, np_random_choice fs (Some ws) u = Raise (ValueError msg).
Proof.
  unfold weights_clearly_invalid, np_random_choice. intros H.
  destruct fs as [|f0 fs]; [eauto|].
  destruct (Nat.eqb (length ws) (length (f0 :: fs))); cbn [negb orb] in H |- *; [|eauto].
  destruct (existsb (fun x => negb (Qle_bool 0 x)) ws); cbn [negb orb] in H |- *; [eauto|].
  destruct (Qabs_diff_le (Qsum ws) 1 atol) eqn:E; cbn [negb]; [|eauto].
  exfalso. apply negb_true_iff in H.
  assert (X : Qabs_diff_le (Qsum ws) 1 (1 # 1000) = true); [|congruence].
  unfold Qabs_diff_le in E |- *.
  apply andb_true_iff in E as [E1 E2]. apply andb_true_iff.
  rewrite Qle_bool_iff in E1, E2. rewrite !Qle_bool_iff.
  assert (T : (atol <= 1 # 1000)%Q) by (unfold atol, Qle; simpl; lia).
  split; eapply Qle_trans; eauto.
Qed.

(** C5, as the code has it.  [Crossover.__init__] checks nothing: it
    returns an object which holds the functions, the weights and the
    number of crossovers as given, whatever the weights are.  Weights
    with a wrong number of entries, with a negative entry, or with a sum
    which is off from one by more than a thousandth surface as a
    [ValueError] raised by [__call__], at the random choice for the first
    parent tuple, when the budget is at least one and the selection
    yields a tuple. *)
Theorem bad_weights_surface_at_call_time
    (engine : FunctionData → SelectionEngine) (methods : Methods)
    (fs : list FunctionData) (n : Z) (ws : list Q)
    (population : Population) (counter_path : string) (w : World)
    (tools : GATools) (fd : FunctionData)
    (parents : list Molecule) (rest : list (list Molecule))
    (Hbad : weights_clearly_invalid fs ws = true)
    (Htools : ga_tools population = Some tools)
    (Hsel : selection tools = Some fd)
    (Hpool : sel_crossover (engine fd) population = parents :: rest)
    (Hn : 1 ≤ n) :
  (∀ fs' n' ws', ∃ c', Crossover_init fs' n' ws' = Ok c' ∧
     funcs c' = fs' ∧ weights c' = ws' ∧ num_crossovers c' = n') ∧
  ∃ c, Crossover_init fs n (Some ws) = Ok c ∧
       funcs c = fs ∧ weights c = Some ws ∧ num_crossovers c = n ∧
       ∃ msg, Crossover_call engine methods c population counter_path w =
                Raise (ValueError msg).
Proof.
  split; [intros fs' n' ws'; eexists; repeat split|].
  eexists. split; [reflexivity|]. repeat (split; [reflexivity|]).
  unfold Crossover_call, select_crossover, selection_of.
  rewrite Htools, Hsel. simpl. rewrite Hpool, islice_stop by lia.
  destruct (Z.to_nat n) as [|k] eqn:Hk; [lia|].
  simpl. unfold cross_step. simpl.
  destruct (clearly_invalid_weights_raise fs ws (rng w (rng_pos w)) Hbad) as [msg ->].
  exists msg. reflexivity.
Qed.

Lemma bad_weights_surface_at_call_time_witness :
  ∃ c, Crossover_init [mkFunctionData "bb_lk_exchange" []] 3 (Some [(1#2)%Q]) = Ok c ∧
       ∃ msg, Crossover_call in_order ∅ c (ga_pop [mol_a; mol_b]) "" world0 =
                Raise (ValueError msg).
Proof.
  destruct (bad_weights_surface_at_call_time in_order ∅
              [mkFunctionData "bb_lk_exchange" []] 3 [(1#2)%Q]
              (ga_pop [mol_a; mol_b]) "" world0 tools_with_selection
              (mkFunctionData "in_order" []) [mol_a; mol_a] [[mol_b; mol_b]]
              eq_refl eq_refl eq_refl eq_refl ltac:(lia))
    as (_ & c & Hc & _ & _ & _ & Hcall).
  exists c. split; [exact Hc | exact Hcall].
Defined.

(** *** C6 *)

(** The text of the error record: for a function name without a capital
    [P] the placeholder is the only text replaced. *)
Lemma str_replace_no_match (new pre s : string) :
  has_char char_P pre = false →
  str_replace_from O "PARENTS" new (pre +:+ s) =
  pre +:+ str_replace_from O "PARENTS" new s.
Proof.
  induction pre as [|c pre IH]; intros H; [reflexivity|].
  cbn [has_char] in H. apply orb_false_iff in H as [Hc Hpre].
  unfold char_P in Hc.
  change (String c pre +:+ s) with (String c (pre +:+ s)).
  cbn [str_replace_from str_prefix]. rewrite Hc. rewrite IH by exact Hpre.
  reflexivity.
Qed.

Lemma errormsg_plain (func_name : string) (parents : list Molecule) :
  has_char char_P func_name = false →
  errormsg func_name parents =
  "Crossover function " +:+ dq +:+ func_name +:+ "()" +:+ dq +:+
  " failed on molecules " +:+ pnames parents +:+ ".".
Proof.
  intros H. unfold errormsg, str_replace.
  change ("Crossover function " +:+ dq +:+ func_name +:+ "()" +:+ dq +:+
          " failed on molecules PARENTS.")
    with (("Crossover function " +:+ dq) +:+ func_name +:+ "()" +:+ dq +:+
          " failed on molecules PARENTS.").
  rewrite (str_replace_no_match _ ("Crossover function " +:+ dq)) by reflexivity.
  rewrite (str_replace_no_match _ func_name) by exact H.
  reflexivity.
Qed.








Example failed_crossover_is_logged :
  (Crossover_call in_order flaky_methods flaky_crossover (ga_pop [mol_a; mol_b])
     "" world0 ≫= fun r => Ok (members r.1, log r.2)) =
  Ok ([mol_d],
      [(INFO, "Crossover number 1. Finish when 2.");
       (ERROR, "Crossover function " +:+ dq +:+ "flaky()" +:+ dq +:+
               " failed on molecules " +:+ dq +:+ "a" +:+ dq +:+ " and " +:+
               dq +:+ "a" +:+ dq +:+ ".");
       (INFO, "Crossover number 2. Finish when 2.");
       (DEBUG, "Offspring " +:+ dq +:+ "d" +:+ dq +:+ " retrieved from cache.")]).
Proof. vm_compute. reflexivity. Qed.

Example unknown_method_aborts :
  is_ok (Crossover_call in_order ∅ flaky_crossover (ga_pop [mol_a; mol_b])
           "" world0) = false.
Proof. reflexivity. Qed.


(** * Further properties of the code *)

(** ** [Population.__init__] *)

Lemma init_loop_raise (args : list Arg) (e : Exn) :
  fold_left init_step args (Raise e) = Raise e.
Proof. induction args as [|a args IH]; simpl; [reflexivity | exact IH]. Qed.

Lemma init_loop_spec (args : list Arg) (acc : Population) :
  fold_left init_step args (Ok acc) =
  if existsb is_other args then
    Raise (TypeError "Population can only be initialized with ``Population``, ``MacroMolecule`` and ``GATools`` types.")
  else
    Ok (mkPopulation (populations acc ++ arg_populations args)
          (members acc ++ arg_members args)
          (match last (omap (fun a => match a with ATools t => Some t | _ => None end) args) with
           | Some t => Some t
           | None => ga_tools acc
           end)).
Proof.
  revert acc. induction args as [|a args IH]; intros acc.
  - simpl. rewrite !app_nil_r. destruct acc; reflexivity.
  - destruct a as [p|m|t|s]; cbn [fold_left init_step mbind result_bind existsb
      is_other orb].
    + rewrite IH. destruct (existsb is_other args); [reflexivity|].
      cbn [populations members ga_tools]. unfold arg_populations, arg_members.
      cbn [omap list_omap]. rewrite <- app_assoc. reflexivity.
    + rewrite IH. destruct (existsb is_other args); [reflexivity|].
      cbn [populations members ga_tools]. unfold arg_populations, arg_members.
      cbn [omap list_omap]. rewrite <- app_assoc. reflexivity.
    + rewrite IH. destruct (existsb is_other args); [reflexivity|].
      cbn [populations members ga_tools]. unfold arg_populations, arg_members.
      cbn [omap list_omap]. f_equal. f_equal.
      match goal with |- context [last (t :: ?l)] => generalize l end.
      intros [|t' ts]; [reflexivity|].
      rewrite (last_cons t). destruct (last (t' :: ts)) eqn:El; [reflexivity|].
      apply last_None in El. discriminate.
    + apply init_loop_raise.
Qed.

(** X1.  The constructor of [Population] raises [TypeError] exactly when
    an argument is neither a population, a molecule nor a [GATools];
    otherwise the
    populations among the arguments become the subpopulations and the
    molecules the members, each in the order given, and [ga_tools] is the
    last [GATools] argument, the empty placeholder when there is none. *)
Theorem Population_init_sorts_arguments (args : list Arg) :
  Population_init args =
  if existsb is_other args then
    Raise (TypeError "Population can only be initialized with ``Population``, ``MacroMolecule`` and ``GATools`` types.")
  else
    Ok (mkPopulation (arg_populations args) (arg_members args)
                     (Some (arg_tools args))).
Proof.
  unfold Population_init. rewrite init_loop_spec.
  destruct (existsb is_other args); [reflexivity|].
  cbn [populations members ga_tools app]. unfold arg_tools.
  destruct (last _); reflexivity.
Qed.

(** ** [add_members], [remove_failures], [__add__], [__sub__] *)

Lemma extend_unique_nothing_new (self : Population) (mols : list Molecule) :
  (∀ m, m ∈ mols → contains self m = true) → extend_unique self mols = self.
Proof.
  induction mols as [|m mols IH]; intros H; simpl; [reflexivity|].
  rewrite (H m) by apply list_elem_of_here.
  apply IH. intros x Hx. apply H. by apply elem_of_cons; right.
Qed.

Lemma members_extend_unique (self : Population) (mols : list Molecule) :
  ∃ added, members (extend_unique self mols) = members self ++ added ∧
           sublist added mols.
Proof.
  revert self. induction mols as [|m mols IH]; intros self; simpl.
  - exists []. rewrite app_nil_r. split; [reflexivity | constructor].
  - destruct (contains self m).
    + destruct (IH self) as (added & E & S). exists added.
      split; [exact E | by apply sublist_cons].
    + destruct (IH (append_member self m)) as (added & E & S).
      exists (m :: added). rewrite E. simpl. rewrite <- app_assoc.
      split; [reflexivity | by apply sublist_skip].
Qed.

(** X2.  [add_members] without duplicates keeps the subpopulations and
    the members already held, appends a sublist of the molecules given,
    and adding the same molecules a second time changes nothing. *)
Theorem add_members_is_idempotent (self : Population) (mols : list Molecule) :
  add_members (add_members self mols false) mols false =
    add_members self mols false ∧
  populations (add_members self mols false) = populations self ∧
  ∃ added, members (add_members self mols false) = members self ++ added ∧
           sublist added mols.
Proof.
  unfold add_members. split; [|split].
  - apply extend_unique_nothing_new. intros m Hm.
    by apply extend_unique_complete.
  - apply populations_extend_unique.
  - apply members_extend_unique.
Qed.

(** X3.  With [duplicates=True] every molecule given is appended: the
    new molecules are iterated after the members held before and before
    the members of the subpopulations, and the length grows by the number
    of molecules given. *)
Theorem add_members_with_duplicates (self : Population) (mols : list Molecule) :
  iter (add_members self mols true) =
    members self ++ mols ++ concat (map iter (populations self)) ∧
  len (add_members self mols true) = len self + Z.of_nat (length mols).
Proof.
  unfold len, iter. destruct self as [pops mems t].
  cbn [add_members all_members populations members].
  split; [rewrite <- app_assoc; reflexivity|].
  rewrite !length_app. lia.
Qed.





Lemma filter_none {A} (P : A → Prop) `{∀ x, Decision (P x)} (l : list A) :
  (∀ x, In x l → ¬ P x) → filter P l = [].
Proof.
  induction l as [|x l IH]; intros H'; [reflexivity|].
  rewrite filter_cons, decide_False by (apply H'; left; reflexivity).
  apply IH. intros y Hy. apply H'. right. exact Hy.
Qed.

(** X5.  [self + other] is a new population without members whose two
    subpopulations are the operands, so that it iterates [self] first and
    then [other], and its length is the sum of the lengths; it raises
    [TypeError] when [self.ga_tools] is [None]. *)
Theorem add_makes_two_subpopulations (self other : Population) :
  add self other =
    match ga_tools self with
    | Some t => Ok (mkPopulation [self; other] [] (Some t))
    | None => Raise (TypeError "Population can only be initialized with ``Population``, ``MacroMolecule`` and ``GATools`` types.")
    end ∧
  ∀ r, add self other = Ok r →
       iter r = iter self ++ iter other ∧ len r = len self + len other.
Proof.
  assert (E : add self other =
    match ga_tools self with
    | Some t => Ok (mkPopulation [self; other] [] (Some t))
    | None => Raise (TypeError "Population can only be initialized with ``Population``, ``MacroMolecule`` and ``GATools`` types.")
    end).
  { unfold add. destruct (ga_tools self); reflexivity. }
  split; [exact E|]. intros r Hr. rewrite E in Hr.
  destruct (ga_tools self); [|discriminate]. injection Hr as <-.
  unfold len, iter. cbn [all_members map concat app].
  rewrite app_nil_r. split; [reflexivity|]. rewrite length_app. lia.
Qed.

(** X6.  When every molecule of [self] matches a molecule of [other],
    [self - other] is the empty population with the [ga_tools] of [self];
    in particular a population minus itself is empty. *)
Theorem sub_of_matched_is_empty (self other : Population) (tools : GATools)
    (Htools : ga_tools self = Some tools)
    (Hall : ∀ m, m ∈ iter self → contains other m = true) :
  sub self other = Ok (mkPopulation [] [] (Some tools)) ∧
  sub self self = Ok (mkPopulation [] [] (Some tools)).
Proof.
  assert (G : ∀ T, (∀ m, m ∈ iter self → contains T m = true) →
                sub self T = Ok (mkPopulation [] [] (Some tools))).
  { intros T HT. unfold sub. rewrite Htools, Population_of_tools_Some, bind_Ok.
    replace (filter _ (all_members self)) with (@nil Molecule); [reflexivity|].
    symmetry. apply filter_none. intros m Hm Hneg.
    apply list_elem_of_In in Hm. fold (iter self) in Hm.
    rewrite (HT m Hm) in Hneg. discriminate. }
  split; [apply G, Hall|]. apply G. intros m Hm.
  apply contains_spec. exists m. split; [exact Hm | apply same_refl].
Qed.

Lemma sub_of_matched_is_empty_witness :
  sub (flat_pop [mol_a'; mol_b]) nested_pop = Ok (flat_pop []).
Proof.
  apply (sub_of_matched_is_empty (flat_pop [mol_a'; mol_b]) nested_pop
           GATools_init_empty eq_refl).
  intros m Hm. apply elem_of_cons in Hm as [->|Hm]; [reflexivity|].
  apply list_elem_of_singleton in Hm as ->. reflexivity.
Defined.

(** ** [__getitem__] *)

Lemma init_of_molecules (mols : list Molecule) :
  Population_init (map AMol mols) =
  Ok (mkPopulation [] mols (Some GATools_init_empty)).
Proof.
  unfold Population_init. rewrite init_loop_spec.
  assert (E : existsb is_other (map AMol mols) = false
              ∧ arg_populations (map AMol mols) = []
              ∧ arg_members (map AMol mols) = mols
              ∧ omap (fun a => match a with ATools t => Some t | _ => None end)
                  (map AMol mols) = []).
  { induction mols as [|m mols (E1 & E2 & E3 & E4)]; [auto|].
    unfold arg_populations, arg_members in *. cbn [map existsb is_other orb omap
      list_omap]. rewrite E1, E2, E3, E4. auto. }
  destruct E as (-> & -> & -> & ->). reflexivity.
Qed.

(** X7.  A slice without step whose bounds lie between zero and
    [sys.maxsize] returns a flat population: its members are the
    molecules of the iteration order between the bounds, it has no
    subpopulations, and it holds the [ga_tools] of the population; the
    slice [[:]] holds every molecule of the population. *)
Theorem slice_is_a_flat_population (p : Population) (start stop : option Z)
    (Hstart : ∀ a, start = Some a → 0 ≤ a ≤ sys_maxsize)
    (Hstop : ∀ b, stop = Some b → 0 ≤ b ≤ sys_maxsize) :
  getitem p (KSlice start stop None) =
    Ok (IPop (mkPopulation []
                (drop (Z.to_nat (default 0 start))
                   (match stop with
                    | Some e => take (Z.to_nat e) (iter p)
                    | None => iter p
                    end))
                (ga_tools p))) ∧
  getitem p (KSlice None None None) =
    Ok (IPop (mkPopulation [] (iter p) (ga_tools p))).
Proof.
  assert (G : ∀ s e, (∀ a, s = Some a → 0 ≤ a) → (∀ b, e = Some b → 0 ≤ b) →
    getitem p (KSlice s e None) =
    Ok (IPop (mkPopulation []
                (drop (Z.to_nat (default 0 s))
                   (match e with
                    | Some e => take (Z.to_nat e) (iter p)
                    | None => iter p
                    end))
                (ga_tools p)))).
  { intros s e Hs He. unfold getitem, islice.
    assert (Bs : match s with Some v => v <? 0 | None => false end = false).
    { destruct s as [a|]; [|reflexivity]. specialize (Hs a eq_refl). lia. }
    assert (Be : match e with Some v => v <? 0 | None => false end = false).
    { destruct e as [b|]; [|reflexivity]. specialize (He b eq_refl). lia. }
    rewrite Bs, Be. cbn [orb]. cbv iota. rewrite bind_Ok.
    change (Z.to_nat (default 1 None)) with 1%nat. rewrite take_every_one.
    rewrite init_of_molecules, bind_Ok. reflexivity. }
  split; [apply G; intros x Hx; [apply (Hstart x Hx) | apply (Hstop x Hx)]|].
  rewrite G by discriminate. reflexivity.
Qed.

Lemma slice_is_a_flat_population_witness :
  getitem nested_pop (KSlice (Some 1) (Some 3) None) =
  Ok (IPop (mkPopulation [] [mol_c; mol_d] (Some GATools_init_empty))).
Proof.
  apply (slice_is_a_flat_population nested_pop (Some 1) (Some 3)).
  - intros a [= <-]. unfold sys_maxsize. lia.
  - intros b [= <-]. unfold sys_maxsize. lia.
Defined.

(** X8.  Unlike an integer index, a slice with a negative bound, or with
    a step below one, raises [ValueError]. *)
Theorem slice_with_negative_bound_raises (p : Population) (start stop step : option Z)
    (Hneg : (∃ a, start = Some a ∧ a < 0) ∨ (∃ b, stop = Some b ∧ b < 0) ∨
            (∃ c, step = Some c ∧ c < 1)) :
  ∃ msg, getitem p (KSlice start stop step) = Raise (ValueError msg).
Proof.
  unfold getitem, islice.
  destruct Hneg as [(a & -> & Ha)|[(b & -> & Hb)|(c & -> & Hc)]].
  - destruct (Z.ltb_spec a 0); [|lia]. simpl. eauto.
  - destruct (Z.ltb_spec b 0); [|lia]. rewrite orb_true_r. simpl. eauto.
  - destruct (_ || _); [simpl; eauto|].
    destruct (Z.ltb_spec c 1); [|lia]. simpl. eauto.
Qed.

Lemma slice_with_negative_bound_raises_witness :
  ∃ msg, getitem nested_pop (KSlice (Some (-1)) None None) = Raise (ValueError msg).
Proof.
  apply (slice_with_negative_bound_raises nested_pop (Some (-1)) None None).
  left. exists (-1). split; [reflexivity | lia].
Defined.

(** X9.  An integer index [i] with [-len <= i < len] returns the
    molecule at position [i mod len] of the iteration order, so negative
    indices count from the end; every other integer index raises
    [IndexError]. *)
Theorem integer_index_wraps_once (p : Population) (i : Z) :
  (- len p ≤ i < len p →
   ∃ m, iter p !! Z.to_nat (i `mod` len p) = Some m ∧
        getitem p (KInt i) = Ok (IMol m)) ∧
  (¬ (- len p ≤ i < len p) →
   getitem p (KInt i) = Raise (IndexError "list index out of range")).
Proof.
  unfold getitem, len, iter. split.
  - intros Hi. destruct (Z.lt_ge_cases i 0) as [Hn|Hp].
    + destruct (py_index_negative (all_members p) i) as (m & Hm & E); [lia|].
      exists m. rewrite E. split; [|reflexivity].
      replace (i `mod` Z.of_nat (length (all_members p)))
        with (Z.of_nat (length (all_members p)) + i); [exact Hm|].
      apply (Z.mod_unique _ _ (-1)); lia.
    + destruct (py_index_in_range (all_members p) i) as (m & Hm & E); [lia|].
      exists m. rewrite E. split; [|reflexivity].
      rewrite Z.mod_small by lia. exact Hm.
  - intros Hi. rewrite py_index_out_of_range by lia. reflexivity.
Qed.

(** ** [fromlist], [dump], [load] *)

Lemma JSON_list_ind (P : JSON → Prop) :
  (∀ l, Forall P l → P (JList l)) →
  (∀ j, (∀ l, j ≠ JList l) → P j) →
  ∀ j, P j.
Proof.
  intros Hlist Hother. fix IH 1. intros j.
  destruct j as [| | | |l|d]; try (apply Hother; discriminate).
  apply Hlist. revert l. fix IHl 1. intros [|x l].
  - constructor.
  - constructor; [apply IH | apply IHl].
Qed.

Lemma fromlist_from_shape (ln : bool) (l : list JSON) :
  Forall (fun j => ∀ acc, is_ok (fromlist_item ln acc j) = true →
                          records_and_lists j = true) l →
  ∀ acc, is_ok (fromlist_from ln l acc) = true →
         forallb records_and_lists l = true.
Proof.
  induction 1 as [|j l Hj _ IH]; intros acc; simpl; [reflexivity|].
  destruct (fromlist_item ln acc j) as [acc'|e] eqn:E; simpl; [|discriminate].
  intros Hrest. rewrite (Hj acc) by (rewrite E; reflexivity).
  apply (IH acc' Hrest).
Qed.

Lemma fromlist_item_shape (ln : bool) (j : JSON) :
  ∀ acc, is_ok (fromlist_item ln acc j) = true → records_and_lists j = true.
Proof.
  induction j as [l IH|j Hj] using JSON_list_ind; intros acc.
  - rewrite fromlist_item_JList.
    destruct (fromlist l ln) as [sp|e] eqn:E; simpl; [|discriminate].
    intros _. apply (fromlist_from_shape ln l IH (mkPopulation [] [] (Some GATools_init_empty))).
    unfold fromlist in E. rewrite E. reflexivity.
  - destruct j; try (simpl; discriminate); [|reflexivity].
    exfalso. apply (Hj items). reflexivity.
Qed.

(** X10.  [fromlist] accepts only lists made of records and of lists of
    the same kind, at every depth: when it returns, no item of the list,
    and no item of a nested list, is a string, a number, a boolean or
    [None]. *)
Theorem fromlist_accepts_records_and_lists (pop_list : list JSON) (load_names : bool)
    (Hok : is_ok (fromlist pop_list load_names) = true) :
  forallb records_and_lists pop_list = true.
Proof.
  apply (fromlist_from_shape load_names pop_list) with
    (acc := mkPopulation [] [] (Some GATools_init_empty)); [|exact Hok].
  apply Forall_forall. intros j _. apply fromlist_item_shape.
Qed.

Lemma fromlist_accepts_records_and_lists_witness :
  forallb records_and_lists (tolist nested_pop) = true.
Proof.
  apply (fromlist_accepts_records_and_lists (tolist nested_pop) true).
  reflexivity.
Defined.

(** X11.  A population which is dumped to a file and loaded from it
    comes back with the same tree of members and subpopulations,
    whatever else the file system holds; the root holds the [ga_tools]
    given to [load], the subpopulations the empty placeholder. *)
Theorem load_after_dump (fs : gmap string JSON) (path : string) (p : Population)
    (tools : option GATools) (load_names : bool) :
  load (dump fs path p) path tools load_names =
    Ok (mkPopulation (map (reloaded load_names) (populations p))
                     (map (reload_molecule load_names) (members p)) tools) ∧
  ∀ q, load (dump fs path p) path tools load_names = Ok q →
       iter q = map (reload_molecule load_names) (iter p) ∧ len q = len p.
Proof.
  assert (E : load (dump fs path p) path tools load_names =
    Ok (mkPopulation (map (reloaded load_names) (populations p))
                     (map (reload_molecule load_names) (members p)) tools)).
  { unfold load, dump. rewrite lookup_insert_eq. simpl.
    rewrite fromlist_tolist. simpl. destruct p; reflexivity. }
  split; [exact E|]. intros q Hq. rewrite E in Hq. injection Hq as <-.
  assert (I : iter (mkPopulation (map (reloaded load_names) (populations p))
                      (map (reload_molecule load_names) (members p)) tools) =
              map (reload_molecule load_names) (iter p)).
  { rewrite <- iter_reloaded. destruct p; reflexivity. }
  split; [exact I|]. unfold len. fold (iter p).
  change (all_members ?x) with (iter x). rewrite I, length_map. reflexivity.
Qed.

(** ** [max] and [min] *)

Lemma foldl_max_spec (x : Z) (l : list Z) :
  x ≤ foldl Z.max x l ∧ Forall (fun y => y ≤ foldl Z.max x l) l ∧
  foldl Z.max x l ∈ x :: l.
Proof.
  revert x. induction l as [|y l IH]; intros x; simpl.
  - split; [lia|]. split; [constructor | apply list_elem_of_here].
  - destruct (IH (Z.max x y)) as (H1 & H2 & H3).
    split; [lia|]. split; [constructor; [lia | exact H2]|].
    apply elem_of_cons in H3 as [H3|H3].
    + rewrite H3. destruct (Z.max_spec x y) as [[_ ->]|[_ ->]].
      * apply elem_of_cons. right. apply list_elem_of_here.
      * apply list_elem_of_here.
    + apply elem_of_cons. right. apply elem_of_cons. right. exact H3.
Qed.

Lemma foldl_min_spec (x : Z) (l : list Z) :
  foldl Z.min x l ≤ x ∧ Forall (fun y => foldl Z.min x l ≤ y) l ∧
  foldl Z.min x l ∈ x :: l.
Proof.
  revert x. induction l as [|y l IH]; intros x; simpl.
  - split; [lia|]. split; [constructor | apply list_elem_of_here].
  - destruct (IH (Z.min x y)) as (H1 & H2 & H3).
    split; [lia|]. split; [constructor; [lia | exact H2]|].
    apply elem_of_cons in H3 as [H3|H3].
    + rewrite H3. destruct (Z.min_spec x y) as [[_ ->]|[_ ->]].
      * apply list_elem_of_here.
      * apply elem_of_cons. right. apply list_elem_of_here.
    + apply elem_of_cons. right. apply elem_of_cons. right. exact H3.
Qed.

(** X12.  For an integer key whose values on the molecules of the
    population lie in the [int64] range: on a population which holds at
    least one molecule, at any level, [max] returns a value of the key
    which no molecule of the population exceeds and [min] a value which
    none goes below, subpopulations included; on a population without
    molecules both raise [ValueError]. *)
Theorem max_and_min_over_all_members (p : Population) (key_ : Molecule → Z)
    (Hrange : ∀ m, m ∈ iter p → int64 (key_ m)) :
  (iter p = [] →
   ∃ msg_max msg_min,
     Population_max p key_ = Raise (ValueError msg_max) ∧
     Population_min p key_ = Raise (ValueError msg_min)) ∧
  (iter p ≠ [] →
   ∃ hi lo, Population_max p key_ = Ok hi ∧ Population_min p key_ = Ok lo ∧
     int64 hi ∧ int64 lo ∧
     (∀ m, m ∈ iter p → lo ≤ key_ m ≤ hi) ∧
     (∃ m, m ∈ iter p ∧ key_ m = hi) ∧ (∃ m, m ∈ iter p ∧ key_ m = lo)).
Proof.
  unfold Population_max, Population_min. split.
  - intros ->. eexists _, _. split; reflexivity.
  - intros Hne. destruct (iter p) as [|m0 ms] eqn:E; [congruence|]. clear Hne.
    cbn [map np_max np_min].
    destruct (foldl_max_spec (key_ m0) (map key_ ms)) as (A1 & A2 & A3).
    destruct (foldl_min_spec (key_ m0) (map key_ ms)) as (B1 & B2 & B3).
    change (key_ m0 :: map key_ ms) with (map key_ (m0 :: ms)) in A3, B3.
    apply list_elem_of_fmap in A3 as (mh & Hh & Hmh).
    apply list_elem_of_fmap in B3 as (ml & Hl & Hml).
    eexists _, _. split; [reflexivity|]. split; [reflexivity|].
    rewrite Forall_forall in A2, B2.
    split; [rewrite Hh; auto|]. split; [rewrite Hl; auto|].
    split; [|split].
    + intros m Hm. apply elem_of_cons in Hm as [->|Hm]; [lia|].
      assert (Hk : key_ m ∈ map key_ ms) by (apply list_elem_of_fmap; eauto).
      specialize (A2 _ Hk). specialize (B2 _ Hk). lia.
    + eauto.
    + eauto.
Qed.

Lemma max_and_min_over_all_members_witness :
  ∃ hi lo, Population_max nested_pop mol = Ok hi ∧
           Population_min nested_pop mol = Ok lo ∧
           ∀ m, m ∈ iter nested_pop → lo ≤ mol m ≤ hi.
Proof.
  assert (Hrange : ∀ m, m ∈ iter nested_pop → int64 (mol m)).
  { apply Forall_forall. unfold int64. repeat constructor; simpl; lia. }
  destruct (max_and_min_over_all_members nested_pop mol Hrange) as [_ H].
  destruct H as (hi & lo & Hhi & Hlo & _ & _ & Hall & _); [discriminate|].
  exists hi, lo. auto.
Defined.

(** ** [gen_next_gen]: what the new generation holds, and the tally *)

Lemma next_gen_loop_prefix (pop_size : Z) (selected : list Molecule)
    (new_gen : Population) (counter : Counter) :
  ∃ n : nat,
    (next_gen_loop pop_size selected new_gen counter).1 =
      extend_unique new_gen (take n selected).
Proof.
  revert new_gen counter. induction selected as [|m rest IH]; intros new_gen counter.
  - exists O. reflexivity.
  - cbn [next_gen_loop].
    destruct (len (add_members new_gen [m] false) =? pop_size).
    + exists 1%nat. reflexivity.
    + destruct (IH (add_members new_gen [m] false) (counter_update counter [m]))
        as [n Hn].
      exists (S n). rewrite Hn, firstn_cons, extend_unique_cons. reflexivity.
Qed.

(** X13.  Whatever the target size, the population which [gen_next_gen]
    returns is flat, holds the [ga_tools] of the population, holds only
    molecules which the generational selection yielded, and holds no two
    molecules with the same fingerprint, even when the selection yields a
    molecule more than once. *)
Theorem gen_next_gen_has_no_duplicates
    (engine : FunctionData → SelectionEngine) (self : Population) (pop_size : Z)
    (tools : GATools) (fd : FunctionData)
    (Htools : ga_tools self = Some tools)
    (Hsel : selection tools = Some fd) :
  ∃ new_gen tally,
    gen_next_gen engine self pop_size = Ok (new_gen, tally) ∧
    populations new_gen = [] ∧
    ga_tools new_gen = Some tools ∧
    NoDup (map key (iter new_gen)) ∧
    ∀ m, m ∈ iter new_gen → m ∈ sel_generational (engine fd) self.
Proof.
  unfold gen_next_gen, select_generational, selection_of.
  rewrite Htools, Hsel, Population_of_tools_Some. simpl.
  set (selected := sel_generational (engine fd) self).
  set (start := mkPopulation [] [] (Some tools)).
  destruct (next_gen_loop_prefix pop_size selected start []) as [n Hn].
  destruct (next_gen_loop pop_size selected start []) as [new_gen counter].
  simpl in Hn. subst new_gen. eexists _, _. split; [reflexivity|].
  destruct (populations_extend_unique start (take n selected)) as [Hp Ht].
  split; [exact Hp|]. split; [exact Ht|]. split.
  - unfold iter. rewrite all_members_unfold, Hp. simpl. rewrite app_nil_r.
    apply extend_unique_first_wins; [reflexivity | apply NoDup_nil_2].
  - intros m Hm. apply extend_unique_sound in Hm as [Hm|Hm].
    + by apply elem_of_nil in Hm.
    + apply (subseteq_take n selected m Hm).
Qed.

Lemma gen_next_gen_has_no_duplicates_witness :
  ∃ new_gen tally,
    gen_next_gen in_order (ga_pop [mol_a; mol_a'; mol_b]) 0 = Ok (new_gen, tally) ∧
    NoDup (map key (iter new_gen)).
Proof.
  destruct (gen_next_gen_has_no_duplicates in_order (ga_pop [mol_a; mol_a'; mol_b])
              0 tools_with_selection (mkFunctionData "in_order" []) eq_refl eq_refl)
    as (new_gen & tally & Hrun & _ & _ & Hnd & _).
  exists new_gen, tally. split; [exact Hrun | exact Hnd].
Defined.

Lemma counter_has_add (c : Counter) (m x : Molecule) (n : Z) :
  counter_has (counter_add c m n) x = counter_has c x || bool_decide (m = x).
Proof.
  unfold counter_has. induction c as [|[m' k] c IH]; simpl.
  - rewrite orb_false_r. reflexivity.
  - destruct (decide (m' = m)) as [->|Hne]; simpl.
    + destruct (bool_decide (m = x)); simpl; [reflexivity|].
      rewrite orb_false_r. reflexivity.
    + rewrite IH. rewrite orb_assoc. reflexivity.
Qed.

Lemma counter_fill_covers (ms : list Molecule) (c : Counter) :
  (∀ x, counter_has c x = true → counter_has (counter_fill c ms) x = true) ∧
  (∀ x, x ∈ ms → counter_has (counter_fill c ms) x = true).
Proof.
  unfold counter_fill. revert c. induction ms as [|m ms IH]; intros c; simpl.
  - split; [auto|]. intros x Hx. by apply elem_of_nil in Hx.
  - destruct (counter_has c m) eqn:Hm.
    + destruct (IH c) as [I1 I2]. split; [exact I1|].
      intros x Hx. apply elem_of_cons in Hx as [->|Hx]; [apply I1, Hm | apply I2, Hx].
    + destruct (IH (counter_add c m 0)) as [I1 I2]. split.
      * intros x Hx. apply I1. rewrite counter_has_add, Hx. reflexivity.
      * intros x Hx. apply elem_of_cons in Hx as [->|Hx]; [|apply I2, Hx].
        apply I1. rewrite counter_has_add, bool_decide_eq_true_2 by reflexivity.
        apply orb_true_r.
Qed.

Lemma counter_update_cons (c : Counter) (m : Molecule) (l : list Molecule) :
  counter_update c (m :: l) = counter_update (counter_update c [m]) l.
Proof. reflexivity. Qed.

Lemma counter_total_update (c : Counter) (l : list Molecule) :
  counter_total (counter_update c l) = counter_total c + Z.of_nat (length l).
Proof.
  revert c. induction l as [|m l IH]; intros c.
  - simpl. lia.
  - rewrite counter_update_cons, IH. unfold counter_update at 1. simpl.
    rewrite counter_total_add. lia.
Qed.

Lemma counter_update_covers (l : list Molecule) (c : Counter) :
  (∀ x, counter_has c x = true → counter_has (counter_update c l) x = true) ∧
  (∀ x, x ∈ l → counter_has (counter_update c l) x = true).
Proof.
  revert c. induction l as [|m l IH]; intros c.
  - split; [auto|]. intros x Hx. by apply elem_of_nil in Hx.
  - rewrite counter_update_cons.
    destruct (IH (counter_update c [m])) as [I1 I2].
    change (counter_update c [m]) with (counter_add c m 1) in *. split.
    + intros x Hx. apply I1. rewrite counter_has_add, Hx. reflexivity.
    + intros x Hx. apply elem_of_cons in Hx as [->|Hx]; [|apply I2, Hx].
      apply I1. rewrite counter_has_add, bool_decide_eq_true_2 by reflexivity.
      apply orb_true_r.
Qed.

Lemma counter_add_nonneg (c : Counter) (m : Molecule) (n : Z) :
  0 ≤ n → Forall (fun e => 0 ≤ e.2) c → Forall (fun e => 0 ≤ e.2) (counter_add c m n).
Proof.
  intros Hn. induction 1 as [|[m' k] c Hk Hc IH]; simpl.
  - repeat constructor. exact Hn.
  - simpl in Hk. destruct (decide (m' = m)); constructor; simpl; auto; lia.
Qed.

Lemma counter_update_nonneg (l : list Molecule) (c : Counter) :
  Forall (fun e => 0 ≤ e.2) c → Forall (fun e => 0 ≤ e.2) (counter_update c l).
Proof.
  revert c. induction l as [|m l IH]; intros c Hc; [exact Hc|].
  rewrite counter_update_cons. apply IH. unfold counter_update. simpl.
  apply counter_add_nonneg; [lia | exact Hc].
Qed.

Lemma counter_fill_nonneg (l : list Molecule) (c : Counter) :
  Forall (fun e => 0 ≤ e.2) c → Forall (fun e => 0 ≤ e.2) (counter_fill c l).
Proof.
  unfold counter_fill. revert c. induction l as [|m l IH]; intros c Hc; [exact Hc|].
  simpl. apply IH. destruct (counter_has c m); [exact Hc|].
  apply counter_add_nonneg; [lia | exact Hc].
Qed.

(** What the first loop of [gen_next_gen] leaves behind, for any target
    size: it draws the first [n] molecules of the selection, where [n]
    is the first positive number of molecules after which the new
    generation has the target size, or the length of the selection when
    there is none. *)
Lemma next_gen_loop_drawn (pop_size : Z) (selected : list Molecule)
    (new_gen : Population) (counter : Counter) :
  ∃ n : nat,
    (n ≤ length selected)%nat ∧
    next_gen_loop pop_size selected new_gen counter =
      (extend_unique new_gen (take n selected),
       counter_update counter (take n selected)) ∧
    (n = length selected ∨
     ((0 < n)%nat ∧ len (extend_unique new_gen (take n selected)) = pop_size)) ∧
    (∀ k : nat, (0 < k < n)%nat →
       len (extend_unique new_gen (take k selected)) ≠ pop_size).
Proof.
  revert new_gen counter.
  induction selected as [|m rest IH]; intros new_gen counter.
  - exists O. simpl. split; [lia|]. split; [reflexivity|]. split; [by left|].
    intros k Hk. lia.
  - cbn [next_gen_loop].
    destruct (Z.eqb_spec (len (add_members new_gen [m] false)) pop_size)
      as [Heq|Hne].
    + exists 1%nat. cbn [length]. split; [lia|]. split; [reflexivity|].
      split; [right; split; [lia | exact Heq]|]. intros k Hk. lia.
    + destruct (IH (add_members new_gen [m] false) (counter_update counter [m]))
        as (n & Hn & Hrun & Hstop & Hmin).
      exists (S n). cbn [length]. split; [lia|].
      rewrite firstn_cons, extend_unique_cons, counter_update_cons.
      split; [exact Hrun|]. split.
      * destruct Hstop as [->|[Hpos Hlen]]; [by left|].
        right. split; [lia | exact Hlen].
      * intros [|[|k]] Hk; [lia| exact Hne |].
        rewrite firstn_cons, extend_unique_cons. apply Hmin. lia.
Qed.

(** X14.  The tally which [gen_next_gen] hands to [plot_counter] has an
    entry for every molecule of the population, selected or not, and for
    every molecule drawn; no count is negative, and the counts add up to
    the number [n] of molecules drawn from the selection.  The molecules
    drawn are the first [n] the selection yields, and the new generation
    is built from them: the drawing stops after the first molecule which
    brings the new generation to the target size, or when the selection
    is exhausted. *)
Theorem gen_next_gen_tally_is_complete
    (engine : FunctionData → SelectionEngine) (self : Population) (pop_size : Z)
    (tools : GATools) (fd : FunctionData)
    (Htools : ga_tools self = Some tools)
    (Hsel : selection tools = Some fd) :
  ∃ new_gen tally (n : nat),
    gen_next_gen engine self pop_size = Ok (new_gen, tally) ∧
    (n ≤ length (sel_generational (engine fd) self))%nat ∧
    new_gen = extend_unique (mkPopulation [] [] (Some tools))
                (take n (sel_generational (engine fd) self)) ∧
    (n = length (sel_generational (engine fd) self) ∨
     ((0 < n)%nat ∧ len new_gen = pop_size)) ∧
    (∀ k : nat, (0 < k < n)%nat →
       len (extend_unique (mkPopulation [] [] (Some tools))
              (take k (sel_generational (engine fd) self))) ≠ pop_size) ∧
    counter_total tally = Z.of_nat n ∧
    Forall (fun e => 0 ≤ e.2) tally ∧
    (∀ m, m ∈ take n (sel_generational (engine fd) self) →
       counter_has tally m = true) ∧
    (∀ m, m ∈ iter self → counter_has tally m = true).
Proof.
  unfold gen_next_gen, select_generational, selection_of.
  rewrite Htools, Hsel, Population_of_tools_Some. simpl.
  set (selected := sel_generational (engine fd) self).
  set (start := mkPopulation [] [] (Some tools)).
  destruct (next_gen_loop_drawn pop_size selected start [])
    as (n & Hn & -> & Hstop & Hmin).
  eexists _, _, n. split; [reflexivity|].
  split; [exact Hn|]. split; [reflexivity|]. split; [exact Hstop|].
  split; [exact Hmin|]. split; [|split; [|split]].
  - rewrite counter_total_fill, counter_total_update. simpl.
    rewrite length_take. lia.
  - apply counter_fill_nonneg, counter_update_nonneg. constructor.
  - intros m Hm.
    apply (proj1 (counter_fill_covers (iter self) _)).
    apply (proj2 (counter_update_covers (take n selected) [])), Hm.
  - apply counter_fill_covers.
Qed.

Lemma gen_next_gen_tally_is_complete_witness :
  ∃ new_gen tally,
    gen_next_gen in_order (ga_pop [mol_a; mol_b; mol_d]) 1 = Ok (new_gen, tally) ∧
    counter_total tally = 1 ∧
    counter_has tally mol_d = true.
Proof.
  destruct (gen_next_gen_tally_is_complete in_order (ga_pop [mol_a; mol_b; mol_d])
              1 tools_with_selection (mkFunctionData "in_order" []) eq_refl eq_refl)
    as (new_gen & tally & n & Hrun & _ & _ & _ & _ & Htot & _ & _ & Hcov).
  exists new_gen, tally. split; [exact Hrun|]. split.
  - injection Hrun as _ <-. reflexivity.
  - apply Hcov.
    apply elem_of_cons. right. apply elem_of_cons. right. apply list_elem_of_here.
Defined.

(** ** The optimization functions of the module and the failure file *)

Lemma raiser_raises (params : list (string * Z)) (m : Molecule) :
  ∃ ex, raiser params m = (m, Some ex).
Proof.
  unfold raiser. destruct (List.find _ params); [eauto|].
  destruct (has_param params "param1"); eauto.
Qed.

(** X15.  With [raiser] as the optimization function no call raises to
    the caller: whatever parameters it is given, every molecule not yet
    optimized comes back unchanged but for [optimized] and [failed], both
    [True], and every molecule already optimized comes back as it was. *)
Theorem raiser_marks_every_member (externals : Globals) (params : list (string * Z))
    (p : Population) (w : World) :
  ∃ w1 w2,
    _optimize_all (module_globals externals) (mkFunctionData "raiser" params) p w =
      Ok (map (fun m => if optimized m then m
                        else set_failed true (set_optimized true m)) (iter p), w1) ∧
    _optimize_all_serial (module_globals externals) (mkFunctionData "raiser" params) p w =
      Ok (map (fun m => if optimized m then m
                        else set_failed true (set_optimized true m)) (iter p), w2).
Proof.
  destruct (optimize_all_returns (module_globals externals)
              (mkFunctionData "raiser" params) raiser p w) as (w1 & w2 & H1 & H2).
  { unfold module_globals. simpl.
    rewrite lookup_insert_ne by discriminate. apply lookup_insert_eq. }
  exists w1, w2. rewrite H1, H2.
  assert (E : map (call_result (raiser params)) (iter p) =
              map (fun m => if optimized m then m
                            else set_failed true (set_optimized true m)) (iter p)).
  { apply map_ext. intros m. destruct (optimized m) eqn:Ho.
    - apply call_result_skipped, Ho.
    - destruct (raiser_raises params m) as [ex Hex].
      apply (call_result_raised _ _ _ _ Ho Hex). }
  simpl in E |- *. rewrite E. split; reflexivity.
Qed.

(** X16.  With [do_not_optimize] and no parameters both entry points
    return the molecules of the population exactly as they are, in
    iteration order. *)
Theorem do_not_optimize_returns_the_members (externals : Globals)
    (p : Population) (w : World) :
  ∃ w1 w2,
    _optimize_all (module_globals externals) (mkFunctionData "do_not_optimize" []) p w =
      Ok (iter p, w1) ∧
    _optimize_all_serial (module_globals externals) (mkFunctionData "do_not_optimize" []) p w =
      Ok (iter p, w2).
Proof.
  destruct (optimize_all_returns (module_globals externals)
              (mkFunctionData "do_not_optimize" []) do_not_optimize p w)
    as (w1 & w2 & H1 & H2).
  { unfold module_globals. simpl. apply lookup_insert_eq. }
  exists w1, w2. rewrite H1, H2.
  assert (E : map (call_result (do_not_optimize [])) (iter p) = iter p).
  { rewrite <- (map_id (iter p)) at 2. apply map_ext. intros m.
    destruct (optimized m) eqn:Ho.
    - apply call_result_skipped, Ho.
    - apply (call_result_returned _ _ _ Ho). reflexivity. }
  simpl in E |- *. rewrite E. split; reflexivity.
Qed.

Lemma call_result_optimized_or_returned (func : OptFunc) (m : Molecule) :
  optimized m = true ∨ (∃ m1 ex, func m = (m1, Some ex)) →
  optimized (call_result func m) = true.
Proof.
  intros [Ho|(m1 & ex & He)].
  - rewrite call_result_skipped by exact Ho. exact Ho.
  - destruct (optimized m) eqn:Ho.
    + rewrite call_result_skipped by exact Ho. exact Ho.
    + rewrite (call_result_raised _ _ _ _ Ho He). reflexivity.
Qed.

(** X17.  A failure is not retried.  When the molecules returned by one
    run are optimized again with the same function, every molecule on
    which the function raised in the first run, and every molecule which
    the first run skipped, comes back from the second run as the first
    run returned it. *)
Theorem failed_members_are_not_retried (G : Globals) (fd : FunctionData)
    (func : list (string * Z) → OptFunc) (p : Population) (w : World)
    (tools : option GATools)
    (Hfunc : G !! fd_name fd = Some func) :
  ∃ out w1 out2 w2,
    _optimize_all G fd p w = Ok (out, w1) ∧
    _optimize_all G fd (mkPopulation [] out tools) w1 = Ok (out2, w2) ∧
    ∀ (i : nat) (m : Molecule), iter p !! i = Some m →
      optimized m = true ∨ (∃ m1 ex, func (fd_params fd) m = (m1, Some ex)) →
      out2 !! i = out !! i ∧ ∃ m', out !! i = Some m' ∧ optimized m' = true.
Proof.
  destruct (optimize_all_returns G fd func p w Hfunc) as (w1 & _ & H1 & _).
  destruct (optimize_all_returns G fd func
              (mkPopulation [] (map (call_result (func (fd_params fd))) (iter p)) tools)
              w1 Hfunc) as (w2 & _ & H2 & _).
  eexists _, w1, _, w2. split; [exact H1|]. split; [exact H2|].
  intros i m Hi Hcase. unfold iter at 1. cbn [all_members map concat].
  rewrite app_nil_r, !list_lookup_fmap. fold (iter p). rewrite Hi. simpl.
  pose proof (call_result_optimized_or_returned _ _ Hcase) as Ho.
  rewrite (call_result_skipped _ _ Ho). split; [reflexivity|]. eauto.
Qed.

Lemma failed_members_are_not_retried_witness :
  ∃ out w1 out2 w2,
    _optimize_all test_globals (mkFunctionData "picky" []) (flat_pop [mol_a; mol_b])
      world0 = Ok (out, w1) ∧
    _optimize_all test_globals (mkFunctionData "picky" []) (mkPopulation [] out None)
      w1 = Ok (out2, w2) ∧
    out2 !! O = out !! O.
Proof.
  destruct (failed_members_are_not_retried test_globals (mkFunctionData "picky" [])
              picky (flat_pop [mol_a; mol_b]) world0 None eq_refl)
    as (out & w1 & out2 & w2 & H1 & H2 & H).
  exists out, w1, out2, w2. split; [exact H1|]. split; [exact H2|].
  apply (H O mol_a eq_refl). right. eexists _, _. reflexivity.
Defined.

Lemma call_world (self : OptimizationFunc) (m : Molecule) (w : World) :
  failures (OptimizationFunc_call self m w).2 =
    failures w ++ option_list (failure_record (wrapped self) m) ∧
  length (stdout (OptimizationFunc_call self m w).2) = S (length (stdout w)).
Proof.
  unfold OptimizationFunc_call, failure_record.
  destruct (optimized m).
  - simpl. rewrite app_nil_r, length_app. simpl. split; [reflexivity | lia].
  - destruct (wrapped self m) as [m1 [ex|]]; simpl;
      rewrite ?app_nil_r, length_app; simpl; (split; [reflexivity | lia]).
Qed.

Lemma serial_run_world (p_func : OptimizationFunc) (ms : list Molecule) (w : World) :
  failures (serial_run p_func ms w).2 =
    failures w ++ omap (failure_record (wrapped p_func)) ms ∧
  length (stdout (serial_run p_func ms w).2) = (length (stdout w) + length ms)%nat.
Proof.
  revert p_func w. induction ms as [|m ms IH]; intros p_func w.
  - simpl. rewrite app_nil_r. split; [reflexivity | lia].
  - cbn [serial_run].
    destruct (call_world p_func m w) as [Hf Hs].
    destruct (call_returns p_func m w) as [_ Hw].
    destruct (OptimizationFunc_call p_func m w) as [[p_func' m'] w'].
    simpl in Hf, Hs, Hw. destruct (IH p_func' w') as [If Is].
    destruct (serial_run p_func' ms w') as [out w'']. simpl in *.
    rewrite If, Is, Hf, Hs, Hw. cbn [omap list_omap].
    split; [|lia].
    destruct (failure_record (wrapped p_func) m); simpl;
      rewrite <- ?app_assoc; reflexivity.
Qed.

(** X18.  For a population which holds no molecule twice, a serial run
    taken to its end adds to the failure file one record for each
    molecule which was not yet optimized and on which the function
    raised, with the error, the molecule as returned and the note
    "During optimization.", in iteration order, and no record for any
    other molecule. *)
Theorem one_failure_record_per_failure (G : Globals) (fd : FunctionData)
    (func : list (string * Z) → OptFunc) (p : Population) (w : World)
    (Hfunc : G !! fd_name fd = Some func)
    (Hdistinct : NoDup (iter p)) :
  ∃ out w',
    _optimize_all_serial G fd p w = Ok (out, w') ∧
    failures w' =
      failures w ++ omap (failure_record (func (fd_params fd))) (iter p) ∧
    (∀ r, r ∈ drop (length (failures w)) (failures w') ↔
       ∃ m m1 ex, m ∈ iter p ∧ optimized m = false ∧
         func (fd_params fd) m = (m1, Some ex) ∧
         r = (ex, set_failed true (set_optimized true m1), "During optimization.")).
Proof.
  unfold _optimize_all_serial, make_p_func. rewrite Hfunc. simpl.
  set (p_func := OptimizationFunc_init (func (fd_params fd))).
  destruct (serial_run_world p_func (iter p) w) as [Sf _].
  destruct (serial_run p_func (iter p) w) as [out w'].
  simpl in Sf. eexists _, _. split; [reflexivity|]. split; [exact Sf|].
  intros r. rewrite Sf, drop_app_length. rewrite list_elem_of_omap.
  unfold failure_record. split.
  - intros (m & Hm & Hr). destruct (optimized m) eqn:Ho; [discriminate|].
    destruct (func (fd_params fd) m) as [m1 [ex|]] eqn:Hrun; [|discriminate].
    injection Hr as <-. eauto 10.
  - intros (m & m1 & ex & Hm & Ho & Hrun & ->). exists m. split; [exact Hm|].
    rewrite Ho, Hrun. reflexivity.
Qed.

Lemma one_failure_record_per_failure_witness :
  ∃ out w',
    _optimize_all_serial test_globals (mkFunctionData "picky" [])
      (flat_pop [mol_a; mol_b]) world0 = Ok (out, w') ∧
    length (failures w') = 1%nat.
Proof.
  destruct (one_failure_record_per_failure test_globals (mkFunctionData "picky" [])
              picky (flat_pop [mol_a; mol_b]) world0 eq_refl)
    as (out & w' & Hrun & Hf & _).
  - apply (bool_decide_unpack _). reflexivity.
  - exists out, w'. split; [exact Hrun|]. rewrite Hf. reflexivity.
Defined.

(** ** More on [Crossover.__call__] *)



(** X20.  A negative number of crossovers makes [__call__] raise
    [ValueError] before any parent tuple is processed. *)
Theorem crossover_with_negative_budget_raises
    (engine : FunctionData → SelectionEngine) (methods : Methods)
    (c : Crossover) (population : Population) (counter_path : string)
    (w : World) (tools : GATools) (sel : FunctionData)
    (Htools : ga_tools population = Some tools)
    (Hsel : selection tools = Some sel)
    (Hneg : num_crossovers c < 0) :
  ∃ msg, Crossover_call engine methods c population counter_path w =
           Raise (ValueError msg).
Proof.
  unfold Crossover_call, select_crossover, selection_of.
  rewrite Htools, Hsel. simpl. unfold islice. simpl.
  destruct (Z.ltb_spec (num_crossovers c) 0); [|lia]. simpl. eauto.
Qed.

Lemma crossover_with_negative_budget_raises_witness :
  ∃ msg, Crossover_call in_order flaky_methods
           {| funcs := [mkFunctionData "flaky" []]; weights := None;
              num_crossovers := -1 |}
           (ga_pop [mol_a; mol_b]) "" world0 = Raise (ValueError msg).
Proof.
  apply (crossover_with_negative_budget_raises in_order flaky_methods
           {| funcs := [mkFunctionData "flaky" []]; weights := None;
              num_crossovers := -1 |}
           (ga_pop [mol_a; mol_b]) "" world0 tools_with_selection
           (mkFunctionData "in_order" []) eq_refl eq_refl).
  simpl. lia.
Defined.










(** ** [functional_groups.py]: [_remove_deleters] *)

Lemma smaller_deleters_cons (d : Z) (ds : list Z) (a : Z) :
  smaller_deleters (d :: ds) a =
  (if decide (d < a) then 1 else 0) + smaller_deleters ds a.
Proof.
  unfold smaller_deleters. rewrite filter_cons.
  destruct (decide (d < a)); simpl; lia.
Qed.

Lemma smaller_deleters_none (ds : list Z) (a : Z) :
  Forall (fun d => a ≤ d) ds → smaller_deleters ds a = 0.
Proof.
  induction 1 as [|d ds Hd _ IH]; [reflexivity|].
  rewrite smaller_deleters_cons, IH. destruct (decide (d < a)); lia.
Qed.

Lemma scan_deleted (a : Z) (ds : list Z) (ch : IdChanges) :
  ch !! a = Some None → Forall (fun d => a ≤ d) ds →
  scan_deleters a ds ch = Ok ch.
Proof.
  intros Hch. induction 1 as [|d ds Hd _ IH]; [reflexivity|].
  cbn [scan_deleters]. destruct (Z.gtb_spec a d) as [?|_]; [lia|].
  destruct (Z.eqb_spec a d) as [_|Hne].
  - rewrite bind_Ok, (insert_id ch a None Hch).
    destruct (Z.ltb_spec a d); [reflexivity | exact IH].
  - rewrite bind_Ok. destruct (Z.ltb_spec a d); [reflexivity | lia].
Qed.

Lemma scan_counts (a : Z) (ds : list Z) :
  StronglySorted Z.le ds →
  ∀ (ch : IdChanges) (n : Z), ch !! a = Some (Some n) →
  scan_deleters a ds ch =
  Ok (<[a := if decide (a ∈ ds) then None
             else Some (n + smaller_deleters ds a)]> ch).
Proof.
  induction 1 as [|d ds Hsorted IH Hd]; intros ch n Hch.
  - cbn [scan_deleters].
    destruct (decide (a ∈ [])) as [H|_]; [by apply elem_of_nil in H|].
    change (smaller_deleters [] a) with 0.
    rewrite Z.add_0_r, insert_id by exact Hch. reflexivity.
  - cbn [scan_deleters]. rewrite smaller_deleters_cons.
    destruct (Z.gtb_spec a d) as [Hgt|Hle].
    + rewrite Hch, bind_Ok. destruct (Z.ltb_spec a d); [lia|].
      rewrite (IH _ (n + 1)) by apply lookup_insert_eq.
      rewrite insert_insert_eq.
      rewrite (decide_True (P := d < a)) by lia.
      destruct (decide (a ∈ ds)) as [Hin|Hnin].
      * rewrite decide_True by (apply elem_of_cons; right; exact Hin). reflexivity.
      * rewrite decide_False.
        -- do 3 f_equal. lia.
        -- intros Hin. apply elem_of_cons in Hin as [?|?]; [lia | contradiction].
    + destruct (Z.eqb_spec a d) as [->|Hne].
      * rewrite bind_Ok. destruct (Z.ltb_spec d d); [lia|].
        rewrite scan_deleted; [|apply lookup_insert_eq | exact Hd].
        rewrite decide_True by apply list_elem_of_here. reflexivity.
      * rewrite bind_Ok. destruct (Z.ltb_spec a d); [|lia].
        assert (Hall : Forall (fun x => a ≤ x) ds).
        { eapply Forall_impl; [exact Hd|]. simpl. intros. lia. }
        rewrite decide_False.
        -- rewrite (decide_False (P := d < a)) by lia.
           rewrite smaller_deleters_none by exact Hall.
           rewrite !Z.add_0_r, insert_id by exact Hch. reflexivity.
        -- intros Hin. apply elem_of_cons in Hin as [?|Hin]; [lia|].
           rewrite Forall_forall in Hd. specialize (Hd a Hin). lia.
Qed.

Lemma count_changes_spec (ds : list Z) (todo : list Z) (ch : IdChanges) :
  StronglySorted Z.le ds → NoDup todo →
  (∀ a, a ∈ todo → ch !! a = Some (Some 0)) →
  ∃ ch', count_changes todo ds ch = Ok ch' ∧
         (∀ a, a ∈ todo → ch' !! a = Some (final_change ds a)) ∧
         (∀ a, a ∉ todo → ch' !! a = ch !! a).
Proof.
  intros Hds Hnd. revert ch. induction Hnd as [|a rest Hnotin Hnd IH]; intros ch Hch.
  - exists ch. simpl. split; [reflexivity|]. split; [|auto].
    intros a Ha. by apply elem_of_nil in Ha.
  - cbn [count_changes].
    rewrite (scan_counts a ds Hds ch 0) by (apply Hch, list_elem_of_here).
    rewrite bind_Ok, Z.add_0_l. fold (final_change ds a).
    destruct (IH (<[a := final_change ds a]> ch)) as (ch' & Hrun & Hin & Hout).
    { intros b Hb. rewrite lookup_insert_ne by (intros ->; contradiction).
      apply Hch. by apply elem_of_cons; right. }
    exists ch'. split; [exact Hrun|]. split.
    + intros b Hb. apply elem_of_cons in Hb as [->|Hb]; [|apply Hin, Hb].
      rewrite (Hout a Hnotin). apply lookup_insert_eq.
    + intros b Hb. apply not_elem_of_cons in Hb as [Hne Hb].
      rewrite (Hout b Hb). apply lookup_insert_ne. congruence.
Qed.

Lemma apply_changes_spec (ds : list Z) (l : list Z) (ch : IdChanges) :
  (∀ a, a ∈ l → ch !! a = Some (final_change ds a)) →
  apply_changes l ch = Ok (renumbered l ds).
Proof.
  induction l as [|a l IH]; intros Hch; [reflexivity|].
  cbn [apply_changes renumbered flat_map].
  rewrite (Hch a) by apply list_elem_of_here.
  rewrite IH by (intros b Hb; apply Hch; by apply elem_of_cons; right).
  unfold final_change, renumbered. destruct (decide (a ∈ ds)); reflexivity.
Qed.

Lemma initial_changes (l : list Z) (d : IdChanges) (a : Z) :
  (a ∈ l → foldl (fun d atom_id => <[atom_id := Some 0]> d) d l !! a = Some (Some 0)) ∧
  (a ∉ l → foldl (fun d atom_id => <[atom_id := Some 0]> d) d l !! a = d !! a).
Proof.
  revert d. induction l as [|x l IH]; intros d; simpl.
  - split; [intros H; by apply elem_of_nil in H | reflexivity].
  - destruct (IH (<[x := Some 0]> d)) as [I1 I2]. split.
    + intros Ha. destruct (decide (a ∈ l)) as [Hin|Hnin]; [apply I1, Hin|].
      apply elem_of_cons in Ha as [->|?]; [|contradiction].
      rewrite (I2 Hnin). apply lookup_insert_eq.
    + intros Ha. apply not_elem_of_cons in Ha as [Hne Ha].
      rewrite (I2 Ha). apply lookup_insert_ne. congruence.
Qed.

Lemma renumbering_computed (atom_ids_ deleters : list Z) :
  NoDup atom_ids_ → Sorted Z.le deleters →
  _remove_deleters atom_ids_ deleters = Ok (renumbered atom_ids_ deleters).
Proof.
  intros Hnd Hsorted.
  unfold _remove_deleters.
  apply Sorted_StronglySorted in Hsorted; [|apply _].
  destruct (count_changes_spec deleters atom_ids_
              (foldl (fun d atom_id => <[atom_id := Some 0]> d) ∅ atom_ids_)
              Hsorted Hnd) as (ch' & Hrun & Hin & _).
  { intros a Ha. apply initial_changes, Ha. }
  rewrite Hrun, bind_Ok. apply apply_changes_spec, Hin.
Qed.

(** X23.  For deleters sorted in ascending order, [_remove_deleters]
    returns, in their order, the atom ids which are not deleters, each
    lowered by the number of deleters below it, when no atom id is
    repeated; and [remove_deleters] renumbers in this way the atoms, the
    bonders and the deleters of a functional group, and keeps its id and
    its kind. *)
Theorem remove_deleters_renumbers (fg : FunctionalGroup) (deleters : list Z)
    (Hatoms : NoDup (atom_ids fg))
    (Hbonders : NoDup (bonder_ids fg))
    (Hdeleters : NoDup (deleter_ids fg))
    (Hsorted : Sorted Z.le deleters) :
  _remove_deleters (atom_ids fg) deleters = Ok (renumbered (atom_ids fg) deleters) ∧
  remove_deleters fg deleters =
    ({| fg_id := fg_id fg;
        atom_ids := renumbered (atom_ids fg) deleters;
        bonder_ids := renumbered (bonder_ids fg) deleters;
        deleter_ids := renumbered (deleter_ids fg) deleters;
        info := info fg |}, None).
Proof.
  split; [apply renumbering_computed; assumption|].
  unfold remove_deleters.
  rewrite (renumbering_computed (atom_ids fg)) by assumption.
  cbn [fg_id atom_ids bonder_ids deleter_ids info].
  rewrite (renumbering_computed (bonder_ids fg)) by assumption.
  cbn [fg_id atom_ids bonder_ids deleter_ids info].
  rewrite (renumbering_computed (deleter_ids fg)) by assumption.
  reflexivity.
Qed.

Lemma remove_deleters_renumbers_witness :
  _remove_deleters [7; 2; 5; 9] [0; 5; 6] = Ok [4; 1; 6].
Proof.
  apply (remove_deleters_renumbers
           {| fg_id := 0; atom_ids := [7; 2; 5; 9]; bonder_ids := [7];
              deleter_ids := [5]; info := mkFGInfo "amine" "[N]([H])[H]" [] [] |}
           [0; 5; 6]).
  - apply (bool_decide_unpack _). reflexivity.
  - apply (bool_decide_unpack _). reflexivity.
  - apply (bool_decide_unpack _). reflexivity.
  - repeat constructor; lia.
Defined.

Example remove_deleters_repeated_atom_raises :
  is_ok (_remove_deleters [5; 5] [2; 5]) = false.
Proof. reflexivity. Qed.

Example remove_deleters_unsorted_raises :
  is_ok (_remove_deleters [5] [5; 2]) = false.
Proof. reflexivity. Qed.

Lemma smaller_deleters_nonneg (ds : list Z) (a : Z) : 0 ≤ smaller_deleters ds a.
Proof. unfold smaller_deleters. lia. Qed.

Lemma smaller_deleters_bound (ds : list Z) (lo b : Z) :
  StronglySorted Z.lt ds → Forall (fun d => lo < d) ds →
  smaller_deleters ds b ≤ Z.max 0 (b - lo - 1).
Proof.
  intros Hs. revert lo. induction Hs as [|d ds Hs IH Hd]; intros lo Hlo.
  - change (smaller_deleters [] b) with 0. lia.
  - rewrite smaller_deleters_cons. apply Forall_cons in Hlo as [Hd0 _].
    specialize (IH d Hd). destruct (decide (d < b)); lia.
Qed.

Lemma smaller_deleters_gap (ds : list Z) (a b : Z) :
  StronglySorted Z.lt ds → a < b → a ∉ ds →
  smaller_deleters ds b - smaller_deleters ds a ≤ b - a - 1.
Proof.
  intros Hs Hab. induction Hs as [|d ds Hs IH Hd]; intros Ha.
  - change (smaller_deleters [] b) with 0. change (smaller_deleters [] a) with 0. lia.
  - apply not_elem_of_cons in Ha as [Hne Ha].
    destruct (decide (d < a)) as [Hda|Hda].
    + rewrite !smaller_deleters_cons.
      rewrite (decide_True (P := d < a)), (decide_True (P := d < b)) by lia.
      specialize (IH Ha). lia.
    + assert (Hall : Forall (fun x => a < x) (d :: ds)).
      { constructor; [lia|]. eapply Forall_impl; [exact Hd|]. simpl. intros. lia. }
      pose proof (smaller_deleters_bound (d :: ds) a a
                    (SSorted_cons d Hs Hd) Hall) as Ba.
      pose proof (smaller_deleters_bound (d :: ds) a b
                    (SSorted_cons d Hs Hd) Hall) as Bb.
      pose proof (smaller_deleters_nonneg (d :: ds) a). lia.
Qed.

Lemma renumbered_as_map (ids ds : list Z) :
  renumbered ids ds =
  map (fun a => a - smaller_deleters ds a) (filter (fun a => a ∉ ds) ids).
Proof.
  unfold renumbered. induction ids as [|a ids IH]; [reflexivity|].
  cbn [flat_map]. rewrite filter_cons, IH.
  destruct (decide (a ∈ ds)) as [Hin|Hnin].
  - rewrite decide_False by (intros H; contradiction). reflexivity.
  - rewrite decide_True by exact Hnin. reflexivity.
Qed.

(** X24.  For atom ids without repetition and deleters in strictly
    ascending order, the ids which [_remove_deleters] returns are again
    without repetition, there is one for each atom which is not deleted,
    in the order of the atoms kept, and the renumbering keeps the order
    of the ids: of two atoms which are kept, the one with the smaller id
    gets the smaller new id, and no new id exceeds the id it replaces. *)
Theorem remove_deleters_keeps_ids_distinct (atom_ids_ deleters : list Z)
    (Hnd : NoDup atom_ids_)
    (Hsorted : StronglySorted Z.lt deleters) :
  ∃ new_ids,
    _remove_deleters atom_ids_ deleters = Ok new_ids ∧
    NoDup new_ids ∧
    length new_ids = length (filter (fun a => a ∉ deleters) atom_ids_) ∧
    (∀ (i : nat) a a',
       filter (fun a => a ∉ deleters) atom_ids_ !! i = Some a →
       new_ids !! i = Some a' → a' ≤ a) ∧
    (∀ (i j : nat) a b a' b',
       filter (fun a => a ∉ deleters) atom_ids_ !! i = Some a →
       filter (fun a => a ∉ deleters) atom_ids_ !! j = Some b →
       new_ids !! i = Some a' → new_ids !! j = Some b' →
       a < b → a' < b').
Proof.
  assert (Hle : Sorted Z.le deleters).
  { apply StronglySorted_Sorted.
    induction Hsorted as [|d ds Hs IH Hd]; constructor; [exact IH|].
    eapply Forall_impl; [exact Hd|]. simpl. intros. lia. }
  assert (Hmono : ∀ a b, a ∉ deleters → a < b →
            a - smaller_deleters deleters a < b - smaller_deleters deleters b).
  { intros a b Ha Hab.
    pose proof (smaller_deleters_gap deleters a b Hsorted Hab Ha). lia. }
  assert (Hkept : ∀ (i : nat) a,
            filter (fun a => a ∉ deleters) atom_ids_ !! i = Some a → a ∉ deleters).
  { intros i a Hi. apply list_elem_of_lookup_2 in Hi.
    apply list_elem_of_filter in Hi as [Ha _]. exact Ha. }
  exists (renumbered atom_ids_ deleters).
  split; [apply renumbering_computed; assumption|].
  rewrite renumbered_as_map. split; [|split; [apply length_map|split]].
  - apply NoDup_fmap_2_strong; [|apply NoDup_filter, Hnd].
    intros a b Ha Hb Heq.
    apply list_elem_of_filter in Ha as [Ha _]. apply list_elem_of_filter in Hb as [Hb _].
    destruct (Z.lt_trichotomy a b) as [Hlt|[->|Hgt]]; [|reflexivity|].
    + pose proof (Hmono a b Ha Hlt). lia.
    + pose proof (Hmono b a Hb Hgt). lia.
  - intros i a a' Hi Hi'. rewrite list_lookup_fmap, Hi in Hi'.
    injection Hi' as <-. pose proof (smaller_deleters_nonneg deleters a). lia.
  - intros i j a b a' b' Hi Hj Hi' Hj' Hab.
    rewrite list_lookup_fmap, Hi in Hi'. rewrite list_lookup_fmap, Hj in Hj'.
    injection Hi' as <-. injection Hj' as <-.
    apply Hmono; [exact (Hkept i a Hi) | exact Hab].
Qed.

Lemma remove_deleters_keeps_ids_distinct_witness :
  ∃ new_ids, _remove_deleters [7; 2; 5; 9] [0; 5; 6] = Ok new_ids ∧ NoDup new_ids.
Proof.
  destruct (remove_deleters_keeps_ids_distinct [7; 2; 5; 9] [0; 5; 6])
    as (new_ids & Hrun & Hnd & _).
  - apply (bool_decide_unpack _). reflexivity.
  - repeat constructor; lia.
  - exists new_ids. split; [exact Hrun | exact Hnd].
Defined.

(** ** [shifted_fg] *)

Lemma map_shift_shift (s t : Z) (l : list Z) :
  map (fun id => id + t) (map (fun id => id + s) l) = map (fun id => id + (s + t)) l.
Proof. rewrite map_map. apply map_ext. intros. lia. Qed.

Lemma smaller_deleters_shift (s : Z) (ds : list Z) (a : Z) :
  smaller_deleters (map (fun id => id + s) ds) (a + s) = smaller_deleters ds a.
Proof.
  induction ds as [|d ds IH]; [reflexivity|].
  cbn [map]. rewrite !smaller_deleters_cons, IH.
  destruct (decide (d + s < a + s)), (decide (d < a)); lia.
Qed.

Lemma renumbered_shift (s : Z) (ids ds : list Z) :
  renumbered (map (fun id => id + s) ids) (map (fun id => id + s) ds) =
  map (fun id => id + s) (renumbered ids ds).
Proof.
  unfold renumbered. induction ids as [|a ids IH]; [reflexivity|].
  cbn [map flat_map]. rewrite IH, map_app, smaller_deleters_shift.
  f_equal. destruct (decide (a ∈ ds)) as [Hin|Hnin].
  - rewrite decide_True; [reflexivity|]. apply list_elem_of_fmap. eauto.
  - rewrite decide_False; [simpl; f_equal; lia|].
    intros Hin. apply list_elem_of_fmap in Hin as (d & Hd & Hin).
    assert (a = d) by lia. congruence.
Qed.

Lemma map_shift_zero (l : list Z) : map (fun id => id + 0) l = l.
Proof.
  induction l as [|x l IH]; [reflexivity|].
  cbn [map]. rewrite IH, Z.add_0_r. reflexivity.
Qed.

(** X25.  Shifting a functional group twice is shifting it once by the
    sum, and the functional group with the last id; a shift keeps the
    number of atoms, bonders and deleters and the kind of the group. *)
Theorem shifted_fg_composes (fg : FunctionalGroup) (id1 id2 s t : Z) :
  shifted_fg (shifted_fg fg id1 s) id2 t = shifted_fg fg id2 (s + t) ∧
  length (atom_ids (shifted_fg fg id1 s)) = length (atom_ids fg) ∧
  length (bonder_ids (shifted_fg fg id1 s)) = length (bonder_ids fg) ∧
  length (deleter_ids (shifted_fg fg id1 s)) = length (deleter_ids fg) ∧
  info (shifted_fg fg id1 s) = info fg ∧
  shifted_fg fg (fg_id fg) 0 = fg.
Proof.
  unfold shifted_fg. simpl. rewrite !map_shift_shift, !length_map.
  repeat split. destruct fg as [i a b d inf]. simpl.
  rewrite !map_shift_zero. reflexivity.
Qed.

(** X26.  Renumbering commutes with shifting: removing shifted deleters
    from the shifted atom ids gives the shifted result of removing the
    deleters from the atom ids. *)
Theorem remove_deleters_commutes_with_shift (atom_ids_ deleters : list Z) (shift : Z)
    (Hnd : NoDup atom_ids_)
    (Hsorted : Sorted Z.le deleters) :
  ∃ new_ids,
    _remove_deleters atom_ids_ deleters = Ok new_ids ∧
    _remove_deleters (map (fun id => id + shift) atom_ids_)
                     (map (fun id => id + shift) deleters) =
      Ok (map (fun id => id + shift) new_ids).
Proof.
  exists (renumbered atom_ids_ deleters).
  split; [apply renumbering_computed; assumption|].
  rewrite <- renumbered_shift. apply renumbering_computed.
  - apply NoDup_fmap_2; [|exact Hnd]. intros x y. lia.
  - clear Hnd. induction Hsorted as [|d ds Hs IH Hd]; [constructor|].
    cbn [map]. constructor; [exact IH|].
    destruct Hd as [|d' ds' Hdd']; constructor. lia.
Qed.

Lemma remove_deleters_commutes_with_shift_witness :
  _remove_deleters (map (fun id => id + 10) [7; 2; 5; 9])
                   (map (fun id => id + 10) [0; 5; 6]) = Ok [14; 11; 16].
Proof.
  destruct (remove_deleters_commutes_with_shift [7; 2; 5; 9] [0; 5; 6] 10)
    as (new_ids & H1 & H2).
  - apply (bool_decide_unpack _). reflexivity.
  - repeat constructor; lia.
  - rewrite H2. change (_remove_deleters [7; 2; 5; 9] [0; 5; 6]) with
      (@Ok (list Z) [4; 1; 6]) in H1. injection H1 as <-. reflexivity.
Defined.

(** ** [ReactionKey] *)

Lemma names_counter_snoc (l : list string) (x : string) :
  names_counter (l ++ [x]) =
  <[x := S (default O (names_counter l !! x))]> (names_counter l).
Proof. unfold names_counter. rewrite foldl_snoc. reflexivity. Qed.

Lemma names_counter_lookup (l : list string) (k : string) :
  names_counter l !! k =
  match count_occ String.string_dec l k with
  | O => None
  | S n => Some (S n)
  end.
Proof.
  induction l as [|x l IH] using rev_ind; [reflexivity|].
  rewrite names_counter_snoc, count_occ_app. simpl.
  destruct (String.string_dec x k) as [->|Hne].
  - rewrite lookup_insert_eq, IH, Nat.add_1_r.
    destruct (count_occ String.string_dec l k); reflexivity.
  - rewrite lookup_insert_ne by exact Hne. rewrite IH, Nat.add_0_r. reflexivity.
Qed.

Lemma names_counter_eq_iff (a b : list string) :
  names_counter a = names_counter b ↔ a ≡ₚ b.
Proof.
  rewrite (Permutation_count_occ String.string_dec). split.
  - intros E k. pose proof (f_equal (fun c => c !! k) E) as Hk. simpl in Hk.
    rewrite !names_counter_lookup in Hk.
    destruct (count_occ String.string_dec a k), (count_occ String.string_dec b k); congruence.
  - intros H. apply map_eq. intros k. rewrite !names_counter_lookup, (H k).
    reflexivity.
Qed.

Lemma item_le_total : Total item_le.
Proof.
  intros [n1 c1] [n2 c2]. unfold item_le, item_leb. simpl.
  destruct (String.eqb_spec n1 n2) as [->|Hne].
  - rewrite String.eqb_refl. destruct (Nat.leb_spec c1 c2), (Nat.leb_spec c2 c1);
      auto; lia.
  - destruct (String.eqb_spec n2 n1) as [->|_]; [congruence|].
    unfold String.ltb. destruct (String.compare n1 n2) eqn:E.
    + apply String.compare_eq_iff in E. congruence.
    + left. reflexivity.
    + right. rewrite String.compare_antisym in E.
      destruct (String.compare n2 n1); simpl in E; try discriminate. reflexivity.
Qed.

(** X27.  Two reaction keys are equal exactly when they are made from
    the same functional group names with the same multiplicities, in any
    order; the key lists each name once, with its number of occurrences,
    sorted. *)
Theorem ReactionKey_ignores_the_order (names1 names2 : list string) :
  (ReactionKey_eq (ReactionKey names1) (ReactionKey names2) = true ↔
   names1 ≡ₚ names2) ∧
  Sorted item_le (ReactionKey names1) ∧
  NoDup (ReactionKey names1).*1 ∧
  ∀ nm n, (nm, n) ∈ ReactionKey names1 ↔
          (0 < n)%nat ∧ count_occ String.string_dec names1 nm = n.
Proof.
  unfold ReactionKey_eq, ReactionKey. split; [|split; [|split]].
  - rewrite bool_decide_eq_true, <- names_counter_eq_iff. split.
    + intros E. apply map_to_list_inj.
      rewrite <- (merge_sort_Permutation item_le (map_to_list (names_counter names1))).
      rewrite E. apply merge_sort_Permutation.
    + intros ->. reflexivity.
  - apply Sorted_merge_sort. apply item_le_total.
  - rewrite (merge_sort_Permutation item_le). apply NoDup_fst_map_to_list.
  - intros nm n. rewrite (merge_sort_Permutation item_le), elem_of_map_to_list.
    rewrite names_counter_lookup.
    destruct (count_occ String.string_dec names1 nm); split.
    + discriminate.
    + intros [? <-]. lia.
    + intros [= <-]. split; [lia | reflexivity].
    + intros [_ <-]. reflexivity.
Qed.

Example ReactionKey_amine_aldehyde :
  ReactionKey ["amine"; "aldehyde"] = ReactionKey ["aldehyde"; "amine"] ∧
  ReactionKey ["amine"; "aldehyde"] = [("aldehyde", 1%nat); ("amine", 1%nat)] ∧
  ReactionKey_eq (ReactionKey ["alkyne2"; "alkyne2"]) (ReactionKey ["alkyne2"]) = false.
Proof. vm_compute. auto. Qed.

(** ** [GAInput] *)

Lemma lookup_set_default (k0 : string) (v0 : JSON) (self : Namespace) (k : string) :
  set_default k0 v0 self !! k =
  match self !! k with
  | Some v => Some v
  | None => if decide (k = k0) then Some v0 else None
  end.
Proof.
  unfold set_default. destruct (self !! k0) eqn:E0.
  - destruct (self !! k) eqn:E; [reflexivity|].
    destruct (decide (k = k0)) as [->|_]; congruence.
  - destruct (decide (k = k0)) as [->|Hne].
    + rewrite lookup_insert_eq, E0. reflexivity.
    + rewrite lookup_insert_ne by congruence.
      destruct (self !! k); reflexivity.
Qed.

Lemma lookup_GAInput_init (ns : Namespace) (k : string) :
  GAInput_init ns !! k =
    match ns !! k with
    | Some v => Some v
    | None => GAInput_defaults !! k
    end.
Proof.
  unfold GAInput_init. rewrite !lookup_set_default.
  destruct (ns !! k); [reflexivity|].
  unfold GAInput_defaults. cbn [list_to_map foldr fst snd uncurry].
  repeat (match goal with
          | |- context [decide (k = ?s)] =>
              destruct (decide (k = s)) as [->|?]
          end; [reflexivity|]).
  rewrite !lookup_insert_ne by congruence. reflexivity.
Qed.

(** X28.  [GAInput.__init__] never replaces a value which the input file
    defines: after it an attribute holds the value of the input file when
    there is one, else the default when the attribute is one of
    [num_crossovers], [num_mutations], [mutation_weights],
    [normalization_func], [exit_func] and [databases], and is absent
    otherwise; running the defaults a second time changes nothing. *)
Theorem GAInput_init_fills_only_the_gaps (self : Namespace) (attr : string) :
  GAInput_init self !! attr =
    match self !! attr with
    | Some v => Some v
    | None => GAInput_defaults !! attr
    end ∧
  GAInput_init (GAInput_init self) = GAInput_init self.
Proof.
  pose proof lookup_GAInput_init as L.
  split; [apply L|].
  apply map_eq. intros k. rewrite !L.
  destruct (self !! k); [reflexivity|].
  destruct (GAInput_defaults !! k); reflexivity.
Qed.

(** X29.  The default which [__init__] stores under [normalization_func]
    is never read: [normalizer] reads [normalization_funcs], so for an
    input file which does not define that variable [normalizer] raises
    [AttributeError] and [ga_tools] does not return, whereas [exiter]
    falls back on the default exit function [no_exit]. *)
Theorem normalizer_ignores_the_default (self : Namespace)
    (Hmissing : self !! "normalization_funcs" = None) :
  normalizer (GAInput_init self) =
    Raise (AttributeError "'GAInput' object has no attribute 'normalization_funcs'") ∧
  is_ok (GAInput_ga_tools (GAInput_init self)) = false ∧
  (self !! "exit_func" = None →
   exiter (GAInput_init self) =
     Ok {| desc_name := JStr "no_exit"; desc_params := [] |}).
Proof.
  assert (N : normalizer (GAInput_init self) =
    Raise (AttributeError "'GAInput' object has no attribute 'normalization_funcs'")).
  { unfold normalizer, getattr.
    rewrite lookup_GAInput_init, Hmissing. reflexivity. }
  split; [exact N|]. split.
  - unfold GAInput_ga_tools.
    destruct (selector _); [|reflexivity]. rewrite bind_Ok.
    destruct (crosser _); [|reflexivity]. rewrite bind_Ok.
    destruct (mutator _); [|reflexivity]. rewrite bind_Ok.
    rewrite N. reflexivity.
  - intros He. unfold exiter, getattr.
    rewrite lookup_GAInput_init, He. reflexivity.
Qed.

Lemma normalizer_ignores_the_default_witness :
  normalizer (GAInput_init {[ "normalization_func" := JList [] ]}) =
  Raise (AttributeError "'GAInput' object has no attribute 'normalization_funcs'").
Proof.
  apply (normalizer_ignores_the_default {[ "normalization_func" := JList [] ]}).
  reflexivity.
Defined.
